(** * A shallow embedding of the syntheca harvesting and record-linkage code

    The Python sources modelled here are
    - [syntheca/processing/cleaning.py]  : [normalize_doi], [load_publisher_mapping],
                                           the date and DOI steps of [clean_publications]
    - [syntheca/processing/merging.py]   : [deduplicate], the update rows of
                                           [add_missing_affils], the OILS column names
                                           of [merge_oils_with_all]
    - [syntheca/processing/matching.py]  : [resolve_missing_ids], [calculate_fuzzy_match]
    - [syntheca/clients/base.py]         : [_is_retriable_exception], [BaseClient.request]
    - [syntheca/clients/pure_oai.py]     : [PureOAIClient.get_all_records] and its
                                           record parsers ([_parse_publication], ...)
    - [syntheca/clients/pure_oai_lxml.py]: [_harvest_collection_concurrent],
                                           [generate_date_chunks]

    Strings are Stdlib [string]s (ASCII characters); polars data frames are a
    list of column names plus rows given as association lists from column
    name to a nullable cell. *)

From Stdlib Require Import List String Ascii ZArith QArith Lia Lqa Bool Permutation.
Import ListNotations.
Open Scope nat_scope.
Open Scope string_scope.

(* ------------------------------------------------------------------ *)
(** ** Characters and strings *)

Module Str.
Local Open Scope nat_scope.

(** Unicode lowercase restricted to ASCII, as polars' [str.to_lowercase]
    and Python's [str.lower] act on ASCII letters. *)
Definition lower_char (c : ascii) : ascii :=
  let n := nat_of_ascii c in
  if (65 <=? n) && (n <=? 90) then ascii_of_nat (n + 32) else c.

Fixpoint to_lowercase (s : string) : string :=
  match s with
  | EmptyString => EmptyString
  | String c s' => String (lower_char c) (to_lowercase s')
  end.

(** Rust's [char::is_whitespace] on ASCII (polars [str.strip_chars()]):
    U+0009 .. U+000D and U+0020. *)
Definition rust_is_whitespace (c : ascii) : bool :=
  let n := nat_of_ascii c in
  ((9 <=? n) && (n <=? 13)) || (n =? 32).

(** Python's [str.isspace] on ASCII ([str.strip()]): additionally
    U+001C .. U+001F. *)
Definition py_is_whitespace (c : ascii) : bool :=
  let n := nat_of_ascii c in
  ((9 <=? n) && (n <=? 13)) || ((28 <=? n) && (n <=? 32)).

Fixpoint strip_leading (ws : ascii -> bool) (s : string) : string :=
  match s with
  | EmptyString => EmptyString
  | String c s' => if ws c then strip_leading ws s' else s
  end.

Definition rev_string (s : string) : string :=
  string_of_list_ascii (rev (list_ascii_of_string s)).

Definition strip (ws : ascii -> bool) (s : string) : string :=
  rev_string (strip_leading ws (rev_string (strip_leading ws s))).

(** One character of a regular expression built from literal characters and
    [.]; [.] matches every character but the newline (Rust [regex]). *)
Definition regex_char_matches (p c : ascii) : bool :=
  if Ascii.eqb p "."%char then negb (Ascii.eqb c "010"%char) else Ascii.eqb p c.

(** Does [pat] match at the start of [s]? *)
Fixpoint matches_at (pat s : string) : bool :=
  match pat, s with
  | EmptyString, _ => true
  | String p pat', String c s' => regex_char_matches p c && matches_at pat' s'
  | String _ _, EmptyString => false
  end.

(** polars [str.replace(pattern, "")] with its defaults [literal=False, n=1]:
    the leftmost match of the (non-empty, fixed-length) pattern is removed. *)
Fixpoint replace_first (pat s : string) : string :=
  if matches_at pat s then substring (String.length pat) (String.length s) s
  else match s with
       | EmptyString => EmptyString
       | String c s' => String c (replace_first pat s')
       end.

End Str.

(* ------------------------------------------------------------------ *)
(** ** polars data frames *)

Module Frame.

Definition cell := option string.
Definition row := list (string * cell).

Record frame := mkFrame { columns : list string; rows : list row }.

(** Value of column [k] in a row; a missing key reads as null. *)
Fixpoint row_get (r : row) (k : string) : cell :=
  match r with
  | [] => None
  | (k', v) :: r' => if String.eqb k k' then v else row_get r' k
  end.

(** Overwrite column [k] in place, or append it as the last column. *)
Fixpoint row_set (r : row) (k : string) (v : cell) : row :=
  match r with
  | [] => [(k, v)]
  | (k', v') :: r' => if String.eqb k k' then (k', v) :: r' else (k', v') :: row_set r' k v
  end.

Fixpoint row_drop (r : row) (k : string) : row :=
  match r with
  | [] => []
  | (k', v) :: r' => if String.eqb k k' then row_drop r' k else (k', v) :: row_drop r' k
  end.

Definition has_column (df : frame) (k : string) : bool :=
  existsb (String.eqb k) (columns df).

(** [df.with_columns(expr.alias(name))]: the expression is evaluated on the
    rows of [df]; an existing column is replaced in place, a new one is
    appended. *)
Definition with_column (df : frame) (name : string) (f : row -> cell) : frame :=
  mkFrame (if has_column df name then columns df else columns df ++ [name])
          (map (fun r => row_set r name (f r)) (rows df)).

Definition filter_rows (p : row -> bool) (df : frame) : frame :=
  mkFrame (columns df) (filter p (rows df)).

Definition drop (df : frame) (k : string) : frame :=
  mkFrame (filter (fun c => negb (String.eqb k c)) (columns df))
          (map (fun r => row_drop r k) (rows df)).

Definition height (df : frame) : nat := List.length (rows df).

End Frame.

(* ------------------------------------------------------------------ *)
(** ** [cleaning.normalize_doi] *)

Module Cleaning.
Import Frame.

Definition doi_prefix : string := "https://doi.org/".

(** The expression chain
    [cast(Utf8).fill_null("").str.replace("https://doi.org/", "")
     .str.to_lowercase().str.strip_chars()] on one cell. *)
Definition normalize_doi_value (c : cell) : cell :=
  let s := match c with Some s => s | None => "" end in
  Some (Str.strip Str.rust_is_whitespace
          (Str.to_lowercase (Str.replace_first doi_prefix s))).

(** [new_col or col_name]: [col_name] when [new_col] is [None] or [""]. *)
Definition target_column (col_name : string) (new_col : option string) : string :=
  match new_col with
  | Some n => if String.eqb n "" then col_name else n
  | None => col_name
  end.

(** [normalize_doi(df, col_name, new_col=None)] *)
Definition normalize_doi (df : frame) (col_name : string) (new_col : option string) : frame :=
  let target := target_column col_name new_col in
  if negb (has_column df col_name)
  then with_column df target (fun _ => None)
  else with_column df target (fun r => normalize_doi_value (row_get r col_name)).

End Cleaning.

(* ------------------------------------------------------------------ *)
(** ** [merging.deduplicate] *)

Module Merging.
Import Frame.

Inductive subseq {A : Type} : list A -> list A -> Prop :=
| subseq_nil : subseq [] []
| subseq_take x xs ys : subseq xs ys -> subseq (x :: xs) (x :: ys)
| subseq_skip x xs ys : subseq xs ys -> subseq xs (x :: ys).

(** polars [unique(subset=..)] with its defaults [keep="any"] and
    [maintain_order=False]: exactly one row is kept per distinct key (nulls
    compare equal), polars does not say which row of a key it keeps, nor in
    which order the kept rows come out.  The relation admits every such
    result. *)
Definition unique_rel {K : Type} (key : row -> K) (xs ys : list row) : Prop :=
  exists picks,
    subseq picks xs /\ NoDup (map key picks) /\
    (forall x, In x xs -> exists p, In p picks /\ key p = key x) /\
    Permutation picks ys.

Definition unique_frame_rel {K : Type} (key : row -> K) (df out : frame) : Prop :=
  columns out = columns df /\ unique_rel key (rows df) (rows out).

(** [pl.col(title_col).str.to_lowercase().str.strip_chars()] *)
Definition norm_title (title_col : string) (r : row) : cell :=
  option_map (fun s => Str.strip Str.rust_is_whitespace (Str.to_lowercase s))
             (row_get r title_col).

Definition is_not_null (c : cell) : bool :=
  match c with Some _ => true | None => false end.

(** [deduplicate(df, doi_col, title_col)], as a relation between the input
    frame and each frame polars may return. *)
Definition deduplicate_rel (df : frame) (doi_col title_col : string) (out : frame) : Prop :=
  let df_norm := Cleaning.normalize_doi df doi_col (Some "_norm_doi") in
  let df_with_doi := filter_rows (fun r => is_not_null (row_get r "_norm_doi")) df_norm in
  let no_doi0 := filter_rows (fun r => negb (is_not_null (row_get r "_norm_doi"))) df_norm in
  exists df_no_dups no_doi,
    (if Nat.eqb (height df_with_doi) 0 then df_no_dups = df_with_doi
     else unique_frame_rel (fun r => row_get r "_norm_doi") df_with_doi df_no_dups) /\
    (if has_column no_doi0 title_col && negb (Nat.eqb (height no_doi0) 0)
     then exists tmp,
            unique_frame_rel (fun r => row_get r "_norm_title")
              (with_column no_doi0 "_norm_title" (norm_title title_col)) tmp /\
            no_doi = drop tmp "_norm_title"
     else no_doi = no_doi0) /\
    (* pl.concat([df_no_dups, no_doi], how="vertical").unique() *)
    let combined := mkFrame (columns df_no_dups) (rows df_no_dups ++ rows no_doi) in
    unique_frame_rel (fun r => map (row_get r) (columns combined)) combined out.

End Merging.

(* ------------------------------------------------------------------ *)
(** ** [matching.resolve_missing_ids] *)

Module Matching.
Import Frame.
Local Open Scope Q_scope.

Definition UT_OPENALEX_ID : string := "https://openalex.org/I94624287".

(** The attributes of a candidate work that the matching pass reads with
    [getattr]. *)
Record work := mkWork {
  display_name : option string;
  work_id : option string;
  work_doi : option string;
  corresponding_institution_ids : list string
}.

(** Longest common subsequence of two character lists. *)
Fixpoint lcs (xs ys : list ascii) : nat :=
  match xs with
  | [] => 0%nat
  | x :: xs' =>
      (fix lcs_x (ys : list ascii) : nat :=
         match ys with
         | [] => 0%nat
         | y :: ys' =>
             if Ascii.eqb x y then S (lcs xs' ys')
             else Nat.max (lcs xs' ys) (lcs_x ys')
         end) ys
  end.

(** InDel distance (insertions and deletions only), the distance
    [Levenshtein.ratio] normalises. *)
Definition indel_distance (a b : string) : nat :=
  (String.length a + String.length b
  - 2 * lcs (list_ascii_of_string a) (list_ascii_of_string b))%nat.

(** [Levenshtein.ratio(a, b)] = [1 - indel(a, b) / (len a + len b)], and
    [1.0] for two empty strings.  Scores are exact rationals here; the
    selection below only compares them. *)
Definition ratio (a b : string) : Q :=
  let lensum := (String.length a + String.length b)%nat in
  if Nat.eqb lensum 0 then 1
  else 1 - inject_Z (Z.of_nat (indel_distance a b)) / inject_Z (Z.of_nat lensum).

Definition py_lower_strip (s : string) : string :=
  Str.strip Str.py_is_whitespace (Str.to_lowercase s).

(** The score of work [w] for searched title [t]:
    [ratio(name.lower().strip(), str(t).lower().strip())], plus [0.05]
    when [UT_OPENALEX_ID] is among the corresponding institutions. *)
Definition score (t : string) (w : work) : Q :=
  let name := match display_name w with Some n => n | None => "" end in
  let base := ratio (py_lower_strip name) (py_lower_strip t) in
  if existsb (String.eqb UT_OPENALEX_ID) (corresponding_institution_ids w)
  then base + (1 # 20) else base.

(** The loop [for w in works: ... if score > best_score: best, best_score = w, score]. *)
Fixpoint best_loop (t : string) (ws : list work) (best : option work) (best_score : Q)
  : option work * Q :=
  match ws with
  | [] => (best, best_score)
  | w :: ws' =>
      let s := score t w in
      if Qle_bool s best_score then best_loop t ws' best best_score
      else best_loop t ws' (Some w) s
  end.

(** [best = None; best_score = 0.0]; loop; [if best and best_score >= threshold]. *)
Definition select_best (threshold : Q) (t : string) (ws : list work) : option work :=
  match best_loop t ws None 0 with
  | (Some w, bs) => if Qle_bool threshold bs then Some w else None
  | (None, _) => None
  end.

(** What [await client.get_works_by_title(t)] does: return a value
    ([None] is read as [[]] by [works or []]), raise an instance of
    [Exception] (caught by [except Exception]), or raise a [BaseException]
    that is no [Exception] (e.g. [asyncio.CancelledError]), which the
    handler does not catch. *)
Inductive lookup_result :=
| Found (works : option (list work))
| RaisedException
| RaisedBaseException.

Record candidate := mkCandidate {
  search_title : string;
  oa_id : option string;
  oa_doi : option string
}.

(** [works or []] *)
Definition works_list (ws : option (list work)) : list work :=
  match ws with Some l => l | None => [] end.

(** One iteration of [for t in to_search]; [None] when an exception
    leaves the loop. *)
Definition search_one (lookup : string -> lookup_result) (threshold : Q) (t : string)
  : option (option candidate) :=
  let works := match lookup t with
               | Found ws => Some (works_list ws)
               | RaisedException => Some []
               | RaisedBaseException => None
               end in
  match works with
  | None => None
  | Some ws =>
      Some (option_map (fun w => mkCandidate t (work_id w) (work_doi w))
                       (select_best threshold t ws))
  end.

Fixpoint search_all (lookup : string -> lookup_result) (threshold : Q) (ts : list string)
  : option (list candidate) :=
  match ts with
  | [] => Some []
  | t :: ts' =>
      match search_one lookup threshold t with
      | None => None
      | Some c =>
          match search_all lookup threshold ts' with
          | None => None
          | Some cs => Some (match c with Some x => x :: cs | None => cs end)
          end
      end
  end.

(** [df.filter(id is null).filter(title is not null).select(title).unique()];
    polars gives these titles in no fixed order: the titles are distinct
    and each is looked up on its own, so their order changes nothing
    below. *)
Definition to_search (df : frame) (title_col id_col : string) : list string :=
  nodup string_dec
    (flat_map (fun r => match row_get r id_col, row_get r title_col with
                        | None, Some t => [t]
                        | _, _ => []
                        end) (rows df)).

Fixpoint find_candidate (cs : list candidate) (t : string) : option candidate :=
  match cs with
  | [] => None
  | c :: cs' => if String.eqb (search_title c) t then Some c else find_candidate cs' t
  end.

(** Name of a right-hand column in the joined frame: polars suffixes a name
    already taken on the left with ["_right"]. *)
Definition right_name (df : frame) (k : string) : string :=
  if has_column df k then k ++ "_right" else k.

(** [df.join(cand_df, left_on=title_col, right_on="search_title", how="left")]:
    the right key is coalesced away, [oa_id] and [oa_doi] are added (null
    where no candidate has the row's title; a null title matches nothing);
    a suffixed name that is taken as well raises.  Rows are given in the
    left frame's order; polars does not promise that order, and every
    statement below is about each row on its own. *)
Definition left_join_candidates (df : frame) (title_col : string) (cs : list candidate)
  : option frame :=
  let n_id := right_name df "oa_id" in
  let n_doi := right_name df "oa_doi" in
  if has_column df n_id || has_column df n_doi || String.eqb n_id n_doi then None
  else Some (mkFrame (columns df ++ [n_id; n_doi])
    (map (fun r =>
            let c := match row_get r title_col with
                     | Some t => find_candidate cs t
                     | None => None
                     end in
            row_set (row_set r n_id (match c with Some x => oa_id x | None => None end))
                    n_doi (match c with Some x => oa_doi x | None => None end))
         (rows df))).

Inductive outcome :=
| Raises
| Returns (df : frame).

(** [pl.when(pl.col(k).is_null()).then(pl.col(src)).otherwise(pl.col(k))] *)
Definition fill_null_from (r : row) (k src : string) : cell :=
  match row_get r k with
  | None => row_get r src
  | Some v => Some v
  end.

Definition resolve_missing_ids (lookup : string -> lookup_result) (df : frame)
    (title_col doi_col id_col : string) (threshold : Q) : outcome :=
  if negb (has_column df id_col && has_column df title_col) then Raises
  else
  match search_all lookup threshold (to_search df title_col id_col) with
  | None => Raises
  | Some [] => Returns df
  | Some cands =>
      match left_join_candidates df title_col cands with
      | None => Raises
      | Some out =>
          (* both expressions of [with_columns] read [out]; a repeated
             output name or a missing column raises *)
          if negb (has_column out doi_col) || String.eqb id_col doi_col then Raises
          else
            let out2 := mkFrame (columns out)
                          (map (fun r => row_set (row_set r id_col (fill_null_from r id_col "oa_id"))
                                                 doi_col (fill_null_from r doi_col "oa_doi"))
                               (rows out)) in
            let drop_cols := filter (fun c => has_column out2 c) ["oa_id"; "oa_doi"; "search_title"] in
            Returns (fold_left drop drop_cols out2)
      end
  end.

End Matching.

(* ------------------------------------------------------------------ *)
(** ** [BaseClient.request] under tenacity's [@retry] *)

Module Retry.
Local Open Scope Z_scope.

(** What one [self.client.request(method, url, **kwargs)] call yields. *)
Inductive transport :=
| NetworkError                (* an [httpx.RequestError], timeouts included *)
| Response (status : Z)
| OtherError.                 (* any other exception of the transport *)

(** The exception leaving one attempt. *)
Inductive exc :=
| RequestError
| HTTPStatusError (status : Z)
| OtherException.

(** One attempt: the call, then [response.raise_for_status()], which
    raises for every status outside 2xx. *)
Definition request_once (o : transport) : Z + exc :=
  match o with
  | NetworkError => inr RequestError
  | Response s => if (200 <=? s) && (s <=? 299) then inl s else inr (HTTPStatusError s)
  | OtherError => inr OtherException
  end.

(** [_is_retriable_exception] *)
Definition is_retriable_exception (e : exc) : bool :=
  match e with
  | RequestError => true
  | HTTPStatusError status => (status =? 429) || ((500 <=? status) && (status <? 600))
  | OtherException => false
  end.

(** tenacity's [wait_exponential(multiplier=1, min=1, max=20, exp_base=2)]:
    [max(max(0, min), min(multiplier * exp_base ** (attempt_number - 1), max))]. *)
Definition wait_exponential (attempt_number : nat) : Z :=
  Z.max (Z.max 0 1) (Z.min (1 * 2 ^ (Z.of_nat attempt_number - 1)) 20).

(** tenacity's [stop_after_attempt(max_attempt_number)] *)
Definition stop_after_attempt (max_attempt_number attempt_number : nat) : bool :=
  Nat.leb max_attempt_number attempt_number.

(** How the decorated call ends: the 2xx status returned, the attempt's
    exception re-raised (not retriable), or [tenacity.RetryError] wrapping
    the last exception once the stop condition holds. *)
Inductive call_result :=
| Returned (status : Z)
| Reraised (e : exc)
| RetryError (last : exc).

(** tenacity's loop from attempt [attempt_number]; [outs k] is what the
    transport yields on attempt [k].  The result carries the number of the
    last attempt and the backoff sleeps taken.  [fuel] bounds the
    recursion; from [request] it never runs out before the stop test
    fires. *)
Fixpoint retrying (outs : nat -> transport) (attempt_number fuel : nat)
  : call_result * nat * list Z :=
  match request_once (outs attempt_number) with
  | inl s => (Returned s, attempt_number, [])
  | inr e =>
      if negb (is_retriable_exception e) then (Reraised e, attempt_number, [])
      else if stop_after_attempt 4 attempt_number then (RetryError e, attempt_number, [])
      else match fuel with
           | O => (RetryError e, attempt_number, [])
           | S f =>
               let '(r, n, ws) := retrying outs (S attempt_number) f in
               (r, n, wait_exponential attempt_number :: ws)
           end
  end.

(** [BaseClient.request(method, url)] *)
Definition request (outs : nat -> transport) : call_result * nat * list Z :=
  retrying outs 1 3.

End Retry.

(* ------------------------------------------------------------------ *)
(** ** [pure_oai.PureOAIClient.get_all_records] *)

Module PureOAI.

Definition BASEURL : string := "https://ris.utwente.nl/ws/oai".
Definition SCHEMA : string := "oai_cerif_openaire".

(** [s.split(sep, maxsplit=1)[0]] *)
Definition split_first (sep s : string) : string :=
  match String.index 0 sep s with
  | Some n => substring 0 n s
  | None => s
  end.

Section Client.
Variable record : Type.

(** A ListRecords response as [xmltodict] parses it: its [record] entries,
    each already run through the parser chosen by the collection name
    ([None] for an entry whose [pub] is empty and so skipped), and the
    [#text] of its [resumptionToken]. *)
Record page := mkPage {
  page_records : list (option record);
  resumption_token : option string
}.

Definition collection_url (collection : string) : string :=
  BASEURL ++ "?verb=ListRecords&metadataPrefix=" ++ SCHEMA ++ "&set=" ++ collection.

Definition parsed_records (p : page) : list record :=
  flat_map (fun o => match o with Some x => [x] | None => [] end) (page_records p).

(** [get_collection_data(collection)] against a server answering URL [u]
    with page [server u]; returns the collection's records and the URLs
    requested.  The body of [while url:] ends in an unconditional
    [break] (line 424), so the loop runs once: the resumption-token code
    after it (lines 425-432) is never reached. *)
Definition get_collection_data (server : string -> page) (collection : string)
  : list record * list string :=
  let url := collection_url collection in
  let resume_url := split_first "&metadataPrefix" url in
  let resp := server url in
  let col_records := parsed_records resp in
  (col_records, [url]).

(** [results.update({collection: records})] *)
Fixpoint dict_update (d : list (string * list record)) (k : string) (v : list record)
  : list (string * list record) :=
  match d with
  | [] => [(k, v)]
  | (k', v') :: d' => if String.eqb k k' then (k', v) :: d' else (k', v') :: dict_update d' k v
  end.

(** [get_all_records(collections)] with the retrieval cache and
    persistence switched off: the results dictionary and all URLs
    requested, in order. *)
Fixpoint get_all_records_from (server : string -> page) (results : list (string * list record))
    (collections : list string) : list (string * list record) * list string :=
  match collections with
  | [] => (results, [])
  | c :: cs =>
      let '(recs, urls) := get_collection_data server c in
      let '(res, urls') := get_all_records_from server (dict_update results c recs) cs in
      (res, (urls ++ urls')%list)
  end.

Definition get_all_records (server : string -> page) (collections : list string)
  : list (string * list record) * list string :=
  get_all_records_from server [] collections.

End Client.
End PureOAI.

(* ------------------------------------------------------------------ *)
(** ** [pure_oai_lxml.PureOAIClient._harvest_collection_concurrent] *)

(** The producer and the consumer share an [asyncio.Queue(maxsize=10)];
    they are two tasks of one event loop, so a run is an interleaving of
    their steps, each step ending at an [await]. *)
Module Harvest.
Local Open Scope nat_scope.

Definition QUEUE_MAXSIZE : nat := 10.

Section Window.
Variable page : Type.     (* the parsed XML tree [root] of one response *)
Variable record : Type.   (* a flat record dict *)

(** What the [try] block of the producer's [k]-th iteration meets: the
    request or the parse raising (caught by [except Exception]), a body
    holding [noRecordsMatch], or a parsed tree and the text of its
    [resumptionToken] node. *)
Inductive fetch :=
| FetchRaised
| NoRecordsMatch
| Fetched (root : page) (token : option string).

(** The [k]-th request of the producer (the initial URL for [k = 0], then
    the URL built from the previous token). *)
Variable fetch_at : nat -> fetch.

(** The consumer's work on one tree: the records it extends
    [final_records] with, or [None] when that code raises. *)
Variable process : page -> option (list record).

(** [if token] *)
Definition has_token (t : option string) : bool :=
  match t with Some s => negb (String.eqb s "") | None => false end.

Inductive producer :=
| PFetch (k : nat)                       (* at [resp = await self.request(...)] *)
| PPut (root : page) (next : option nat) (* at [await queue.put(root)] *)
| PSentinel                              (* at [await queue.put(None)] *)
| PDone.

Inductive consumer :=
| CRunning                               (* at [root = await queue.get()] *)
| CDone                                  (* left the loop by [break] *)
| CFailed.                               (* left the loop by an exception *)

(** [dequeued] is ghost state: the items the consumer has taken off the
    queue, in order. *)
Record state := mkState {
  prod : producer;
  queue : list (option page);
  cons : consumer;
  final_records : list record;
  dequeued : list (option page)
}.

Definition init : state := mkState (PFetch 0) [] CRunning [] [].

Inductive step : state -> state -> Prop :=
| step_fetch_page k root tok q c acc d :
    fetch_at k = Fetched root tok ->
    step (mkState (PFetch k) q c acc d)
         (mkState (PPut root (if has_token tok then Some (S k) else None)) q c acc d)
| step_fetch_raised k q c acc d :
    fetch_at k = FetchRaised ->
    step (mkState (PFetch k) q c acc d) (mkState PSentinel q c acc d)
| step_fetch_nomatch k q c acc d :
    fetch_at k = NoRecordsMatch ->
    step (mkState (PFetch k) q c acc d) (mkState PSentinel q c acc d)
| step_put root next q c acc d :
    List.length q < QUEUE_MAXSIZE ->
    step (mkState (PPut root next) q c acc d)
         (mkState (match next with Some k => PFetch k | None => PSentinel end)
                  (q ++ [Some root]) c acc d)
| step_put_sentinel q c acc d :
    List.length q < QUEUE_MAXSIZE ->
    step (mkState PSentinel q c acc d) (mkState PDone (q ++ [None]) c acc d)
| step_get_sentinel p q acc d :
    step (mkState p (None :: q) CRunning acc d) (mkState p q CDone acc (d ++ [None]))
| step_get_page p root q recs acc d :
    process root = Some recs ->
    step (mkState p (Some root :: q) CRunning acc d)
         (mkState p q CRunning (acc ++ recs) (d ++ [Some root]))
| step_get_raises p root q acc d :
    process root = None ->
    step (mkState p (Some root :: q) CRunning acc d)
         (mkState p q CFailed acc (d ++ [Some root])).

Inductive reachable : state -> Prop :=
| reach_init : reachable init
| reach_step s s' : reachable s -> step s s' -> reachable s'.

Definition stuck (s : state) : Prop := forall s', ~ step s s'.

(** The pages a finite cursor chain yields from request [k] on. *)
Inductive produces : nat -> list page -> Prop :=
| produces_raised k : fetch_at k = FetchRaised -> produces k []
| produces_nomatch k : fetch_at k = NoRecordsMatch -> produces k []
| produces_last k root tok :
    fetch_at k = Fetched root tok -> has_token tok = false -> produces k [root]
| produces_more k root tok ps :
    fetch_at k = Fetched root tok -> has_token tok = true -> produces (S k) ps ->
    produces k (root :: ps).

(** The records the consumer makes of a list of pages. *)
Definition records_of (ps : list page) : list record :=
  flat_map (fun p => match process p with Some l => l | None => [] end) ps.

End Window.

Arguments FetchRaised {page}.
Arguments NoRecordsMatch {page}.
Arguments Fetched {page} root token.
Arguments PFetch {page} k.
Arguments PPut {page} root next.
Arguments PSentinel {page}.
Arguments PDone {page}.
Arguments mkState {page record} prod queue cons final_records dequeued.
Arguments prod {page record} s.
Arguments queue {page record} s.
Arguments cons {page record} s.
Arguments final_records {page record} s.
Arguments dequeued {page record} s.
Arguments init {page record}.
Arguments step {page record} fetch_at process _ _.
Arguments reachable {page record} fetch_at process _.
Arguments stuck {page record} fetch_at process s.
Arguments produces {page} fetch_at _ _.
Arguments records_of {page record} process ps.

End Harvest.

(* ------------------------------------------------------------------ *)
(** ** Python values and the [xmltodict] record parsers of [pure_oai.py] *)

(** The values [xmltodict.parse] builds and the parsers return: [None],
    strings, lists and dicts (a dict as its items in insertion order, with
    distinct keys). *)
Module PyVal.

#[warnings="-register-all"]
Inductive pyval :=
| PNone
| PStr (s : string)
| PList (l : list pyval)
| PDict (kvs : list (string * pyval)).

(** [bool(v)] *)
Definition truthy (v : pyval) : bool :=
  match v with
  | PNone => false
  | PStr s => negb (String.eqb s "")
  | PList l => match l with [] => false | _ => true end
  | PDict kvs => match kvs with [] => false | _ => true end
  end.

Definition is_dict (v : pyval) : bool :=
  match v with PDict _ => true | _ => false end.

(** [d[k]] when [k in d] *)
Fixpoint dict_lookup (kvs : list (string * pyval)) (k : string) : option pyval :=
  match kvs with
  | [] => None
  | (k', v) :: kvs' => if String.eqb k k' then Some v else dict_lookup kvs' k
  end.

(** [d.get(k)] on a dict *)
Definition dict_get (kvs : list (string * pyval)) (k : string) : pyval :=
  match dict_lookup kvs k with Some v => v | None => PNone end.

(** [a or b] *)
Definition py_or (a b : pyval) : pyval := if truthy a then a else b.

(** A computation that returns a value or raises. *)
Inductive pyres (A : Type) :=
| Raise
| Ret (a : A).
Arguments Raise {A}.
Arguments Ret {A} a.

Definition bind {A B : Type} (m : pyres A) (f : A -> pyres B) : pyres B :=
  match m with Raise => Raise | Ret a => f a end.

Notation "'let*' x ':=' m 'in' f" := (bind m (fun x => f))
  (at level 200, x name, m at level 100, f at level 200).

(** [v.get(k)]: an [AttributeError] unless [v] is a dict. *)
Definition py_get (v : pyval) (k : string) : pyres pyval :=
  match v with PDict kvs => Ret (dict_get kvs k) | _ => Raise end.

(** [[f(x) for x in xs]] where [f] may raise. *)
Fixpoint map_res {A B : Type} (f : A -> pyres B) (xs : list A) : pyres (list B) :=
  match xs with
  | [] => Ret []
  | x :: xs' => let* y := f x in let* ys := map_res f xs' in Ret (y :: ys)
  end.

(** [s.split(sep)] for a one-character separator: never empty. *)
Fixpoint split_on (sep : ascii) (s : string) : list string :=
  match s with
  | EmptyString => [""]
  | String c s' =>
      let rest := split_on sep s' in
      if Ascii.eqb c sep then "" :: rest
      else match rest with
           | [] => [String c ""]
           | p :: ps => String c p :: ps
           end
  end.

(** [xs[-1]] of a non-empty list *)
Definition last_item (xs : list string) : string := last xs "".

(** [ch in s] *)
Fixpoint contains_char (ch : ascii) (s : string) : bool :=
  match s with
  | EmptyString => false
  | String c s' => Ascii.eqb c ch || contains_char ch s'
  end.

End PyVal.

Module OAIParse.
Import PyVal.

Section Parsers.

(** [str(v)] of a list or dict: its [repr], which depends on the dict
    class of the installed [xmltodict] ([dict] or [OrderedDict]); nothing
    below depends on its characters. *)
Variable str_of : pyval -> string.

(** [_ensure_list] *)
Definition ensure_list (v : pyval) : list pyval :=
  match v with
  | PNone => []
  | PList l => l
  | _ => [v]
  end.

(** [_get_text] *)
Definition get_text (v : pyval) : pyval :=
  match v with
  | PNone => PNone
  | PDict kvs => dict_get kvs "#text"
  | PStr s => PStr s
  | PList _ => PStr (str_of v)
  end.

(** The loop of [_safe_get]: [Some] value at the end of the path, or
    [None] where it returns [default]. *)
Fixpoint safe_get_path (cur : pyval) (keys : list string) : option pyval :=
  match keys with
  | [] => Some cur
  | k :: ks =>
      match cur with
      | PDict kvs =>
          match dict_lookup kvs k with
          | Some v => safe_get_path v ks
          | None => None
          end
      | _ => None
      end
  end.

(** [_safe_get(data, keys, default)] *)
Definition safe_get (data : pyval) (keys : list string) (default : pyval) : pyval :=
  match safe_get_path data keys with Some v => v | None => default end.

(** [_parse_enum] *)
Definition parse_enum (v : pyval) : pyres pyval :=
  match v with
  | PNone => Ret PNone
  | PDict kvs =>
      let text_val := dict_get kvs "#text" in
      if truthy text_val then
        match text_val with
        | PStr s => Ret (PStr (Str.strip Str.py_is_whitespace s))
        | _ => Raise                       (* [.strip] of a non-string *)
        end
      else Ret PNone
  | PStr s =>
      if contains_char "/" s || contains_char "#" s
      then Ret (PStr (last_item (split_on "#" (last_item (split_on "/" s)))))
      else Ret (PStr s)
  | PList _ => Ret (PStr (str_of v))
  end.

(** [_parse_person_name] *)
Definition parse_person_name (v : pyval) : pyval * pyval :=
  match v with
  | PDict kvs => (get_text (dict_get kvs "cerif:FamilyNames"),
                  get_text (dict_get kvs "cerif:FirstNames"))
  | _ => (PNone, PNone)
  end.

(** One iteration of [_parse_contributors]: [None] for a skipped item. *)
Definition parse_contributor (item : pyval) : pyres (option pyval) :=
  let person_data := safe_get item ["cerif:Person"] PNone in
  if negb (truthy person_data) then Ret None
  else
    let* pn := py_get person_data "cerif:PersonName" in
    let '(family_names, first_names) := parse_person_name pn in
    let affiliation_data :=
      py_or (safe_get item ["cerif:Affiliation"; "cerif:OrgUnit"] PNone) (PDict []) in
    Ret (Some (PDict [("person_id", safe_get person_data ["@id"] PNone);
                      ("family_names", family_names);
                      ("first_names", first_names);
                      ("affiliation_id", safe_get affiliation_data ["@id"] PNone);
                      ("affiliation_name",
                        get_text (safe_get affiliation_data ["cerif:Name"] PNone))])).

(** [_parse_contributors] *)
Fixpoint parse_contributors (contrib_list : list pyval) : pyres (list pyval) :=
  match contrib_list with
  | [] => Ret []
  | item :: items =>
      let* o := parse_contributor item in
      let* rest := parse_contributors items in
      Ret (match o with Some d => d :: rest | None => rest end)
  end.

(** One medium of [_parse_file_locations] *)
Definition parse_medium (m : pyval) : pyres pyval :=
  let* uri := py_get m "cerif:URI" in
  let* mime := py_get m "cerif:MimeType" in
  let* size := py_get m "cerif:Size" in
  let* acc := py_get m "ar:Access" in
  let* access := parse_enum acc in
  Ret (PDict [("type", get_text (safe_get m ["cerif:Type"] PNone));
              ("title", get_text (safe_get m ["cerif:Title"] PNone));
              ("uri", get_text uri);
              ("mime_type", get_text mime);
              ("size", get_text size);
              ("access", access)]).

(** [_parse_file_locations] *)
Definition parse_file_locations (file_locations : pyval) : pyres (list pyval) :=
  if negb (truthy file_locations) then Ret []
  else map_res parse_medium (ensure_list (safe_get file_locations ["cerif:Medium"] PNone)).

(** One publication of [_parse_references] *)
Definition parse_reference (p : pyval) : pyres pyval :=
  let* ty := py_get p "pubt:Type" in
  let* ty' := parse_enum ty in
  Ret (PDict [("id", safe_get p ["@id"] PNone);
              ("type", ty');
              ("title", get_text (safe_get p ["cerif:Title"] PNone))]).

(** [_parse_references] *)
Definition parse_references (refs : pyval) : pyres (list pyval) :=
  if negb (truthy refs) then Ret []
  else map_res parse_reference (ensure_list (safe_get refs ["cerif:Publication"] PNone)).

(** [if isinstance(v, dict) and k1 in v: v = v.get(k1) or v
    elif isinstance(v, dict) and k2 in v: v = v.get(k2) or v] *)
Definition unwrap (k1 k2 : string) (v : pyval) : pyval :=
  match v with
  | PDict kvs =>
      match dict_lookup kvs k1 with
      | Some x => py_or x v
      | None =>
          match dict_lookup kvs k2 with
          | Some x => py_or x v
          | None => v
          end
      end
  | _ => v
  end.

(** [_parse_person] *)
Definition parse_person (pers0 : pyval) : pyres pyval :=
  let pers := unwrap "cerif:Person" "openaire_cris:person" pers0 in
  let* orcid := py_get pers "cerif:ORCID" in
  Ret (PDict [("id", safe_get pers ["@id"] PNone);
              ("family_names",
                get_text (safe_get pers ["cerif:PersonName"; "cerif:FamilyNames"] PNone));
              ("first_names",
                get_text (safe_get pers ["cerif:PersonName"; "cerif:FirstNames"] PNone));
              ("orcid", get_text orcid)]).

(** [_parse_orgunit] *)
Definition parse_orgunit (org0 : pyval) : pyres pyval :=
  let org := unwrap "cerif:OrgUnit" "openaire_cris:orgunit" org0 in
  let* name := py_get org "cerif:Name" in
  let* acronym := py_get org "cerif:Acronym" in
  Ret (PDict [("id", safe_get org ["@id"] PNone);
              ("name", get_text name);
              ("acronym", get_text acronym)]).

(** [[get_text(x) for x in ensure_list(v) if get_text(x)]] *)
Definition texts (v : pyval) : pyval :=
  PList (map get_text (filter (fun x => truthy (get_text x)) (ensure_list v))).

(** [_parse_publication] *)
Definition parse_publication (pub0 : pyval) : pyres pyval :=
  let pub := unwrap "cerif:Publication" "openaire_cris:publication" pub0 in
  let text_of k := let* v := py_get pub k in Ret (get_text v) in
  let enum_of k := let* v := py_get pub k in parse_enum v in
  let* ty := enum_of "pubt:Type" in
  let* language := text_of "cerif:Language" in
  let* title := text_of "cerif:Title" in
  let* publication_date := text_of "cerif:PublicationDate" in
  let* doi := text_of "cerif:DOI" in
  let* url := text_of "cerif:URL" in
  let* abstract := text_of "cerif:Abstract" in
  let* volume := text_of "cerif:Volume" in
  let* issue := text_of "cerif:Issue" in
  let* start_page := text_of "cerif:StartPage" in
  let* end_page := text_of "cerif:EndPage" in
  let* status := enum_of "cerif:Status" in
  let* access_right := enum_of "ar:Access" in
  let* license := enum_of "cerif:License" in
  let* authors := parse_contributors
                    (ensure_list (safe_get pub ["cerif:Authors"; "cerif:Author"] PNone)) in
  let* editors := parse_contributors
                    (ensure_list (safe_get pub ["cerif:Editors"; "cerif:Editor"] PNone)) in
  let* kw := py_get pub "cerif:Keyword" in
  let* isbn := py_get pub "cerif:ISBN" in
  let* issn := py_get pub "cerif:ISSN" in
  let publisher_name :=
    get_text (safe_get pub ["cerif:Publishers"; "cerif:Publisher"; "cerif:OrgUnit"; "cerif:Name"]
                       PNone) in
  let published_in := py_or (safe_get pub ["cerif:PublishedIn"; "cerif:Publication"] PNone)
                            (PDict []) in
  let part_of := py_or (safe_get pub ["cerif:PartOf"; "cerif:Publication"] PNone) (PDict []) in
  let event := py_or (safe_get pub ["cerif:PresentedAt"; "cerif:Event"] PNone) (PDict []) in
  let* fl := py_get pub "cerif:FileLocations" in
  let* file_locations := parse_file_locations fl in
  let* rf := py_get pub "cerif:References" in
  let* references := parse_references rf in
  Ret (PDict
    [("id", safe_get pub ["@id"] PNone); ("type", ty); ("language", language);
     ("title", title); ("publication_date", publication_date); ("doi", doi);
     ("url", url); ("abstract", abstract); ("volume", volume); ("issue", issue);
     ("start_page", start_page); ("end_page", end_page); ("status", status);
     ("access_right", access_right); ("license", license);
     ("authors", PList authors); ("editors", PList editors);
     ("keywords", texts kw); ("isbn", texts isbn); ("issn", texts issn);
     ("publisher_name", publisher_name);
     ("published_in_id",
       if truthy published_in then safe_get published_in ["@id"] PNone else PNone);
     ("published_in_title", get_text (safe_get published_in ["cerif:Title"] PNone));
     ("part_of_id", if truthy part_of then safe_get part_of ["@id"] PNone else PNone);
     ("part_of_title", get_text (safe_get part_of ["cerif:Title"] PNone));
     ("event_name", get_text (safe_get event ["cerif:Name"] PNone));
     ("event_acronym", get_text (safe_get event ["cerif:Acronym"] PNone));
     ("file_locations", PList file_locations);
     ("references", PList references)]).

End Parsers.
End OAIParse.

(* ------------------------------------------------------------------ *)
(** ** [pure_oai_lxml.generate_date_chunks] and the [datetime] arithmetic it uses *)

(** A [datetime] at midnight is its proleptic Gregorian ordinal, day 1 being
    0001-01-01, as [datetime.toordinal] counts. *)
Module DateChunks.
Import PyVal.
Local Open Scope Z_scope.

Definition MINYEAR : Z := 1.
Definition MAXYEAR : Z := 9999.
(** [date.max.toordinal()], the ordinal of 9999-12-31 *)
Definition MAXORDINAL : Z := 3652059.

(** [_is_leap] *)
Definition is_leap (year : Z) : bool :=
  (year mod 4 =? 0) && (negb (year mod 100 =? 0) || (year mod 400 =? 0)).

(** [_days_before_year] *)
Definition days_before_year (year : Z) : Z :=
  let y := year - 1 in y * 365 + y / 4 - y / 100 + y / 400.

Definition DAYS_IN_MONTH : list Z := [-1; 31; 28; 31; 30; 31; 30; 31; 31; 30; 31; 30; 31].
Definition DAYS_BEFORE_MONTH : list Z := [-1; 0; 31; 59; 90; 120; 151; 181; 212; 243; 273; 304; 334].

(** [_days_in_month] *)
Definition days_in_month (year month : Z) : Z :=
  if (month =? 2) && is_leap year then 29 else nth (Z.to_nat month) DAYS_IN_MONTH 0.

(** [_days_before_month] *)
Definition days_before_month (year month : Z) : Z :=
  nth (Z.to_nat month) DAYS_BEFORE_MONTH 0 + (if (month >? 2) && is_leap year then 1 else 0).

(** [_ymd2ord] *)
Definition ymd2ord (year month day : Z) : Z :=
  days_before_year year + days_before_month year month + day.

(** [datetime(year, month, day)]: [_check_date_fields] raises [ValueError]
    outside the calendar. *)
Definition datetime (year month day : Z) : pyres Z :=
  if (MINYEAR <=? year) && (year <=? MAXYEAR) && (1 <=? month) && (month <=? 12) &&
     (1 <=? day) && (day <=? days_in_month year month)
  then Ret (ymd2ord year month day) else Raise.

(** [timedelta(days=n)]: [OverflowError] beyond 999999999 days. *)
Definition timedelta_days (n : Z) : pyres Z :=
  if (-999999999 <=? n) && (n <=? 999999999) then Ret n else Raise.

(** [dt + delta]: [OverflowError] outside 0001-01-01 .. 9999-12-31. *)
Definition add_days (ord delta : Z) : pyres Z :=
  let o := ord + delta in
  if (1 <=? o) && (o <=? MAXORDINAL) then Ret o else Raise.

(** The [while current < end_date] loop, given at most [fuel] iterations:
    [None] when they run out (the loop need not end), [Some Raise] when the
    arithmetic raises, else the [(current, chunk_end)] pairs. *)
Fixpoint chunk_loop (fuel : nat) (chunk_size_days end_date current : Z)
  : option (pyres (list (Z * Z))) :=
  match fuel with
  | O => None
  | S fuel' =>
      if current <? end_date then
        match (let* d := timedelta_days chunk_size_days in add_days current d) with
        | Raise => Some Raise
        | Ret ce =>
            let chunk_end := if ce >? end_date then end_date else ce in
            match (let* one := timedelta_days 1 in add_days chunk_end one) with
            | Raise => Some Raise
            | Ret next =>
                match chunk_loop fuel' chunk_size_days end_date next with
                | Some (Ret rest) => Some (Ret ((current, chunk_end) :: rest))
                | Some Raise => Some Raise
                | None => None
                end
            end
        end
      else Some (Ret [])
  end.

Section Generate.
(** [d.strftime("%Y-%m-%d")] of the date with ordinal [d]; whether years
    below 1000 are zero-padded depends on the C library and the Python
    version, and nothing below depends on the characters. *)
Variable strftime : Z -> string.

Definition fmt_pair (c : Z * Z) : string * string := (strftime (fst c), strftime (snd c)).

(** [generate_date_chunks(start_year, end_year, chunk_size_days)]; the
    closing [print] loop only writes to stdout. *)
Definition generate_date_chunks (fuel : nat) (start_year end_year chunk_size_days : Z)
  : option (pyres (list (string * string))) :=
  match datetime start_year 1 1, datetime end_year 12 31 with
  | Ret start_date, Ret end_date =>
      match chunk_loop fuel chunk_size_days end_date start_date with
      | Some (Ret chunks) => Some (Ret (map fmt_pair chunks))
      | Some Raise => Some Raise
      | None => None
      end
  | _, _ => Some Raise
  end.

End Generate.
End DateChunks.

(* ------------------------------------------------------------------ *)
(** ** [cleaning.clean_publications] value expressions and [load_publisher_mapping] *)

Module CleanPubs.
Import Frame.

(** polars [str.replace(pattern, value)] with its defaults [literal=False,
    n=1], for a (non-empty, fixed-length) pattern of literal characters and
    [.], and a replacement holding no [$] group reference: the leftmost match
    is replaced. *)
Fixpoint replace_first_by (pat rep s : string) : string :=
  if Str.matches_at pat s then rep ++ substring (String.length pat) (String.length s) s
  else match s with
       | EmptyString => EmptyString
       | String c s' => String c (replace_first_by pat rep s')
       end.

(** [pl.col("publication_date").cast(pl.Utf8).str.replace("2-01-23", "2023-01-02")
     .str.replace("3-03-15", "2015-03-03")] on one cell *)
Definition fix_publication_date (c : cell) : cell :=
  option_map (fun s => replace_first_by "3-03-15" "2015-03-03"
                         (replace_first_by "2-01-23" "2023-01-02" s)) c.

(** [pl.col("doi").cast(pl.Utf8).str.to_lowercase()
     .str.replace("https://doi.org/", "").str.strip_chars()] on one cell *)
Definition clean_doi_value (c : cell) : cell :=
  option_map (fun s => Str.strip Str.rust_is_whitespace
                         (Str.replace_first Cleaning.doi_prefix (Str.to_lowercase s))) c.

(** [flipped[variant] = canonical]: an existing key keeps its place. *)
Fixpoint dict_set (d : list (string * string)) (k v : string) : list (string * string) :=
  match d with
  | [] => [(k, v)]
  | (k', v') :: d' => if String.eqb k k' then (k', v) :: d' else (k', v') :: dict_set d' k v
  end.

Fixpoint dict_lookup (d : list (string * string)) (k : string) : option string :=
  match d with
  | [] => None
  | (k', v) :: d' => if String.eqb k k' then Some v else dict_lookup d' k
  end.

(** [load_publisher_mapping()]: [file] is the parsed JSON object
    [{canonical: [variants]}] as its items, [None] when the file does not
    exist. *)
Definition load_publisher_mapping (file : option (list (string * list string)))
  : list (string * string) :=
  let data := match file with Some d => d | None => [] end in
  fold_left (fun flipped '(canonical, variants) =>
               fold_left (fun fl variant => dict_set fl variant canonical) variants flipped)
            data [].

End CleanPubs.

(* ------------------------------------------------------------------ *)
(** ** The update rows of [merging.add_missing_affils] *)

Module Affils.

Definition bool_cols : list string := ["tnw"; "eemcs"; "et"; "bms"; "itc"; "dsi"; "techmed"; "mesa"].

(** An entry of the corrections list: [entry.get("name")] and
    [entry.get("affiliations", [])], the affiliations being abbreviation
    strings ([None] for a missing key or a JSON [null]). *)
Record entry := mkEntry {
  entry_name : option string;
  entry_affiliations : option (list string)
}.

(** [update_dict]: the eight faculty flags, the four list columns and the
    name. *)
Record update := mkUpdate {
  flags : list (string * bool);
  faculty_abbr : option string;
  department_abbr : option string;
  group_abbr : option string;
  institute : option string;
  name : string
}.

(** [update_dict[k] = True] for a key [k] of [bool_cols] *)
Fixpoint set_flag (fl : list (string * bool)) (k : string) : list (string * bool) :=
  match fl with
  | [] => [(k, true)]
  | (k', b) :: fl' => if String.eqb k k' then (k', true) :: fl' else (k', b) :: set_flag fl' k
  end.

Definition in_bool_cols (s : string) : bool := existsb (String.eqb s) bool_cols.

(** One iteration of [for abbr in affils]. *)
Definition apply_abbr (u : update) (abbr : string) : update :=
  if PyVal.contains_char "-" abbr then
    let parts := PyVal.split_on "-" abbr in
    if (3 <=? List.length parts)%nat then
      let fac_lower := Str.to_lowercase (nth 0 parts "") in
      mkUpdate (if in_bool_cols fac_lower then set_flag (flags u) fac_lower else flags u)
               (Some (nth 0 parts "")) (Some (nth 1 parts "")) (Some (nth 2 parts ""))
               (institute u) (name u)
    else u
  else
    let abbr_lower := Str.to_lowercase abbr in
    mkUpdate (if in_bool_cols abbr_lower then set_flag (flags u) abbr_lower else flags u)
             (faculty_abbr u) (department_abbr u) (group_abbr u) (Some abbr) (name u).

(** The body of [for entry in more_data]: [None] for a skipped entry. *)
Definition entry_update (e : entry) : option update :=
  let affils := match entry_affiliations e with Some l => l | None => [] end in
  match entry_name e with
  | Some n =>
      if String.eqb n "" then None
      else match affils with
           | [] => None
           | _ => Some (fold_left apply_abbr affils
                          (mkUpdate (map (fun c => (c, false)) bool_cols) None None None None n))
           end
  | None => None
  end.

(** [updates] *)
Definition updates (more_data : list entry) : list update :=
  flat_map (fun e => match entry_update e with Some u => [u] | None => [] end) more_data.

End Affils.

(* ------------------------------------------------------------------ *)
(** ** [matching.calculate_fuzzy_match] *)

Module Fuzzy.
Import Frame.

(** [x.get(col) or ""] *)
Definition or_empty (c : cell) : string := match c with Some s => s | None => "" end.

(** [_ratio(x)] on the struct of one row: Levenshtein's ratio of the two
    cells, a null (or empty) cell read as [""]; [ratio] does not raise on
    strings, so the [except] branch is not taken. *)
Definition fuzzy_ratio (r : row) (left_col right_col : string) : Q :=
  Matching.ratio (or_empty (row_get r left_col)) (or_empty (row_get r right_col)).

End Fuzzy.

(* ------------------------------------------------------------------ *)
(** ** One ListRecords page in [pure_oai.get_collection_data] *)

Module PageParse.
Import PyVal OAIParse.

(** [v.get(k, default)]: an [AttributeError] unless [v] is a dict. *)
Definition py_get_or (v : pyval) (k : string) (default : pyval) : pyres pyval :=
  match v with
  | PDict kvs => Ret (match dict_lookup kvs k with Some x => x | None => default end)
  | _ => Raise
  end.

(** [pat in s] *)
Definition has_sub (pat s : string) : bool :=
  match String.index 0 pat s with Some _ => true | None => false end.

(** [records = parsed.get("OAI-PMH", {}).get("ListRecords", {})];
    [recs = records.get("record")]; [if not isinstance(recs, list):
    recs = [recs] if recs else []] *)
Definition page_recs (parsed : pyval) : pyres (list pyval) :=
  let* oai := py_get_or parsed "OAI-PMH" (PDict []) in
  let* records := py_get_or oai "ListRecords" (PDict []) in
  let* recs := py_get records "record" in
  Ret (match recs with
       | PList l => l
       | _ => if truthy recs then [recs] else []
       end).

Section Page.
Variable str_of : pyval -> string.

(** [meta = r.get("metadata", {})]; [pub = _safe_get(meta, ["cerif:Publication"])
    or _safe_get(meta, ["openaire_cris:publication"]) or meta] *)
Definition record_pub (r : pyval) : pyres pyval :=
  let* meta := py_get_or r "metadata" (PDict []) in
  Ret (py_or (safe_get meta ["cerif:Publication"] PNone)
             (py_or (safe_get meta ["openaire_cris:publication"] PNone) meta)).

(** The parser chosen by the collection name. *)
Definition collection_parser (collection : string) : pyval -> pyres pyval :=
  let lc := Str.to_lowercase collection in
  if has_sub "person" lc then parse_person str_of
  else if has_sub "orgunit" lc || has_sub "orgs" lc then parse_orgunit str_of
  else parse_publication str_of.

(** [for r in recs: ... if pub: col_records.append(parser(pub))] *)
Fixpoint process_records (collection : string) (recs : list pyval) : pyres (list pyval) :=
  match recs with
  | [] => Ret []
  | r :: rs =>
      let* pub := record_pub r in
      let* head := if truthy pub
                   then let* x := collection_parser collection pub in Ret [x]
                   else Ret [] in
      let* rest := process_records collection rs in
      Ret (head ++ rest)%list
  end.

(** The records [get_collection_data] returns for the parsed first
    response (the loop body ends in [break]). *)
Definition collection_page (collection : string) (parsed : pyval) : pyres (list pyval) :=
  let* recs := page_recs parsed in
  process_records collection recs.

End Page.

(** [xmltodict.parse] of a response whose [ListRecords] element has the
    children [lr]. *)
Definition oai_page (lr : list (string * pyval)) : pyval :=
  PDict [("OAI-PMH", PDict [("ListRecords", PDict lr)])].

End PageParse.

(* ------------------------------------------------------------------ *)
(** ** [merging.merge_oils_with_all]: the renaming of the OILS columns *)

Module OilsMerge.

(** [rename_dict], restricted by the code to the keys present in
    [oils_df.columns]; a column that is not a key keeps its name. *)
Definition rename_dict : list (string * string) :=
  [("Title_1", "Journal"); ("Keywords (free keywords)", "Keywords");
   ("Pure ID", "PureID"); ("DOI", "doi")].

Definition first_rename (col : string) : string :=
  match CleanPubs.dict_lookup rename_dict col with Some v => v | None => col end.

(** Python [s.replace(" ", "_")]: every space is replaced. *)
Fixpoint replace_space (s : string) : string :=
  match s with
  | EmptyString => EmptyString
  | String c s' => String (if Ascii.eqb c " " then "_"%char else c) (replace_space s')
  end.

(** [(col + "_oils").lower().replace(" ", "_")] *)
Definition oils_name (col : string) : string :=
  replace_space (Str.to_lowercase (col ++ "_oils")).

(** The column names of [oils] after both renames. *)
Definition oils_columns (cols : list string) : list string :=
  map (fun c => oils_name (first_rename c)) cols.

End OilsMerge.

(* ================================================================== *)
(** * Proofs *)

Module FrameFacts.
Import Frame.

Lemma row_get_set_eq r k v : row_get (row_set r k v) k = v.
Proof.
  induction r as [|[k' v'] r IH]; simpl.
  - rewrite String.eqb_refl; reflexivity.
  - destruct (String.eqb k k') eqn:E; simpl.
    + rewrite E; reflexivity.
    + rewrite E; exact IH.
Qed.

Lemma row_get_set_neq r k k2 v : k2 <> k -> row_get (row_set r k v) k2 = row_get r k2.
Proof.
  intros Hne. induction r as [|[k' v'] r IH]; simpl.
  - apply String.eqb_neq in Hne. rewrite Hne; reflexivity.
  - destruct (String.eqb k k') eqn:E; simpl.
    + apply String.eqb_eq in E; subst k'.
      apply String.eqb_neq in Hne. rewrite Hne; reflexivity.
    + destruct (String.eqb k2 k'); [reflexivity | exact IH].
Qed.

End FrameFacts.

(* ------------------------------------------------------------------ *)
(** ** DOI normalisation *)

Module CleaningFacts.
Import Frame Cleaning.

(** C10: when the DOI column exists, [normalize_doi] writes a non-null value
    into every row, and a null DOI becomes the empty string [""]. *)
Theorem normalize_doi_never_null (df : frame) (col_name : string) (new_col : option string) :
  has_column df col_name = true ->
  (forall r', In r' (rows (normalize_doi df col_name new_col)) ->
     exists s, row_get r' (target_column col_name new_col) = Some s) /\
  (forall r, In r (rows df) -> row_get r col_name = None ->
     In (row_set r (target_column col_name new_col) (Some ""))
        (rows (normalize_doi df col_name new_col))).
Proof.
  intros Hcol. unfold normalize_doi. rewrite Hcol. simpl. split.
  - intros r' Hin. apply in_map_iff in Hin as [r [<- _]].
    rewrite FrameFacts.row_get_set_eq. unfold normalize_doi_value. eauto.
  - intros r Hin Hnull.
    replace (Some "") with (normalize_doi_value (row_get r col_name))
      by (rewrite Hnull; reflexivity).
    apply (in_map (fun r0 => row_set r0 (target_column col_name new_col)
                               (normalize_doi_value (row_get r0 col_name)))).
    exact Hin.
Qed.

Lemma normalize_doi_never_null_witness :
  let df := mkFrame ["doi"; "title"]
              [[("doi", None); ("title", Some "A")];
               [("doi", Some " 10.1/X"); ("title", Some "B")]] in
  has_column df "doi" = true /\
  ((forall r', In r' (rows (normalize_doi df "doi" None)) ->
      exists s, row_get r' (target_column "doi" None) = Some s) /\
   (forall r, In r (rows df) -> row_get r "doi" = None ->
      In (row_set r (target_column "doi" None) (Some ""))
         (rows (normalize_doi df "doi" None)))).
Proof.
  intros df. split; [reflexivity |].
  apply (normalize_doi_never_null df "doi" None). reflexivity.
Defined.

(** The DOI of C6's failing input, written with an upper-case prefix. *)
Definition upper_doi_frame : frame :=
  mkFrame ["doi"] [[("doi", Some "HTTPS://DOI.ORG/10.1/X")]].

(** C6: [normalize_doi] is not idempotent: the prefix is removed before
    the value is lowercased, so an upper-case prefix survives the first
    pass (lowercased) and is removed by the second. *)
Theorem normalize_doi_twice_differs :
  rows (normalize_doi upper_doi_frame "doi" None)
    = [[("doi", Some "https://doi.org/10.1/x")]] /\
  rows (normalize_doi (normalize_doi upper_doi_frame "doi" None) "doi" None)
    = [[("doi", Some "10.1/x")]] /\
  normalize_doi (normalize_doi upper_doi_frame "doi" None) "doi" None
    <> normalize_doi upper_doi_frame "doi" None.
Proof.
  split; [vm_compute; reflexivity |].
  split; [vm_compute; reflexivity |].
  intros H. apply (f_equal rows) in H. vm_compute in H. congruence.
Qed.

End CleaningFacts.

(* ------------------------------------------------------------------ *)
(** ** The Pure OAI client *)

Module PureOAIFacts.
Import PureOAI.

(** C1: fed a first page carrying [resumptionToken=ABC] and a second page
    without token, [get_all_records] requests only the first page and
    returns only its records: the loop breaks after one iteration. *)
Theorem get_all_records_stops_after_first_page
    (record : Type) (r1 r2 : list (option record)) (server : string -> page record)
    (collection : string) :
  server (collection_url collection) = mkPage record r1 (Some "ABC") ->
  server (BASEURL ++ "?verb=ListRecords&resumptionToken=ABC") = mkPage record r2 None ->
  get_all_records record server [collection]
    = ([(collection, parsed_records record (mkPage record r1 (Some "ABC")))],
       [collection_url collection]).
Proof.
  intros H1 _. unfold get_all_records. simpl.
  unfold get_collection_data. rewrite H1. reflexivity.
Qed.

Definition abc_server (u : string) : page nat :=
  if String.eqb u (collection_url "publications")
  then mkPage nat [Some 1; Some 2] (Some "ABC")
  else mkPage nat [Some 3] None.

Lemma get_all_records_stops_after_first_page_witness :
  abc_server (collection_url "publications") = mkPage nat [Some 1; Some 2] (Some "ABC") /\
  abc_server (BASEURL ++ "?verb=ListRecords&resumptionToken=ABC") = mkPage nat [Some 3] None /\
  get_all_records nat abc_server ["publications"]
    = ([("publications", parsed_records nat (mkPage nat [Some 1; Some 2] (Some "ABC")))],
       [collection_url "publications"]).
Proof.
  split; [vm_compute; reflexivity |].
  split; [vm_compute; reflexivity |].
  apply get_all_records_stops_after_first_page with (r2 := [Some 3]);
    vm_compute; reflexivity.
Defined.

End PureOAIFacts.

(* ------------------------------------------------------------------ *)
(** ** The retry policy *)

Module RetryFacts.
Import Retry.
Local Open Scope Z_scope.

Definition retriable_failure (o : transport) : Prop :=
  exists e, request_once o = inr e /\ is_retriable_exception e = true.

Definition retry_trace_ok (outs : nat -> transport) (t : call_result * nat * list Z) : Prop :=
  let '(r, n, sleeps) := t in
  (1 <= n <= 4)%nat /\
  List.length sleeps = (n - 1)%nat /\
  Forall (fun w => 1 <= w <= 20) sleeps /\
  (forall k, (1 <= k < n)%nat -> retriable_failure (outs k)) /\
  match r with
  | Returned s => request_once (outs n) = inl s
  | Reraised e => request_once (outs n) = inr e /\ is_retriable_exception e = false
  | RetryError e => request_once (outs n) = inr e /\ is_retriable_exception e = true /\ n = 4%nat
  end.

Ltac split_attempts outs :=
  repeat match goal with
  | |- context [request_once (outs ?k)] =>
      let E := fresh "E" in destruct (request_once (outs k)) eqn:E
  | |- context [is_retriable_exception ?e] =>
      let E := fresh "R" in destruct (is_retriable_exception e) eqn:E
  end.

Ltac close_trace :=
  repeat split; unfold wait_exponential; simpl; try lia; try assumption;
  repeat constructor; try lia;
  try (intros k Hk;
       first [ assert (k = 1%nat) by lia
             | assert (k = 1%nat \/ k = 2%nat) by lia
             | assert (k = 1%nat \/ k = 2%nat \/ k = 3%nat) by lia ];
       repeat match goal with H : _ \/ _ |- _ => destruct H end; subst;
       eexists; split; eassumption).

(** C5: [request] makes between one and four attempts; it retries only
    after a network error, a 429 or a 5xx; every backoff lies in [1, 20]
    seconds; a 4xx other than 429 is raised after one attempt; the
    sequence 429, 429, 200 takes three attempts and returns the 200. *)
Theorem request_retry_policy :
  (forall outs : nat -> transport, retry_trace_ok outs (request outs)) /\
  (forall (outs : nat -> transport) (status : Z),
     400 <= status < 500 -> status <> 429 -> outs 1%nat = Response status ->
     request outs = (Reraised (HTTPStatusError status), 1%nat, [])) /\
  request (fun k => match k with 1%nat | 2%nat => Response 429 | _ => Response 200 end)
    = (Returned 200, 3%nat, [1; 2]).
Proof.
  split; [| split].
  - intros outs. unfold request, retry_trace_ok. simpl.
    split_attempts outs; simpl; close_trace.
  - intros outs status Hr H429 H1. unfold request. simpl. rewrite H1. simpl.
    destruct ((200 <=? status) && (status <=? 299)) eqn:E2.
    { apply andb_true_iff in E2 as [_ E2]. apply Z.leb_le in E2. lia. }
    assert (Hret : (status =? 429) || ((500 <=? status) && (status <? 600)) = false).
    { apply orb_false_iff. split.
      - apply Z.eqb_neq. exact H429.
      - apply andb_false_iff. left. apply Z.leb_gt. lia. }
    unfold is_retriable_exception. rewrite Hret. reflexivity.
  - vm_compute. reflexivity.
Qed.

End RetryFacts.

(* ------------------------------------------------------------------ *)
(** ** Deduplication *)

Module MergingFacts.
Import Frame Merging.

Lemma subseq_in {A : Type} (ps xs : list A) p : subseq ps xs -> In p ps -> In p xs.
Proof.
  intros Hs. induction Hs; simpl; intros Hin.
  - exact Hin.
  - destruct Hin as [<- | Hin]; [left; reflexivity | right; auto].
  - right; auto.
Qed.

Lemma subseq_length {A : Type} (ps xs : list A) : subseq ps xs -> List.length ps <= List.length xs.
Proof. intros Hs. induction Hs; simpl; lia. Qed.

Lemma unique_rel_length_le {K : Type} (key : row -> K) xs ys :
  unique_rel key xs ys -> List.length ys <= List.length xs.
Proof.
  intros (ps & Hs & _ & _ & Hp).
  rewrite <- (Permutation_length Hp). apply subseq_length; exact Hs.
Qed.

Lemma unique_rel_nonempty {K : Type} (key : row -> K) x xs ys :
  unique_rel key (x :: xs) ys -> ys <> [].
Proof.
  intros (ps & _ & _ & Hcov & Hp) ->.
  destruct (Hcov x (or_introl eq_refl)) as (p & Hin & _).
  apply Permutation_sym, Permutation_nil in Hp. subst ps. exact Hin.
Qed.

(** When all rows share one key, at most one row is kept. *)
Lemma unique_rel_one_key {K : Type} (key : row -> K) xs ys :
  (forall x y, In x xs -> In y xs -> key x = key y) ->
  unique_rel key xs ys -> List.length ys <= 1.
Proof.
  intros Hsame (ps & Hs & Hnd & _ & Hp).
  rewrite <- (Permutation_length Hp).
  destruct ps as [| a [| b ps]]; simpl; [lia | lia |].
  exfalso. simpl in Hnd. inversion Hnd as [| ? ? Hnotin _]; subst.
  apply Hnotin. left.
  apply Hsame; eapply subseq_in; eauto; simpl; auto.
Qed.

Lemma unique_frame_rel_height {K : Type} (key : row -> K) df out :
  (forall x y, In x (rows df) -> In y (rows df) -> key x = key y) ->
  rows df <> [] ->
  unique_frame_rel key df out -> height out = 1.
Proof.
  intros Hsame Hne [_ Hu]. unfold height.
  pose proof (unique_rel_one_key key _ _ Hsame Hu) as Hle.
  destruct (rows df) as [| x xs] eqn:E; [congruence |].
  pose proof (unique_rel_nonempty key x xs _ Hu) as Hne'.
  destruct (rows out) as [| y [| z ys]]; simpl in *; [congruence | reflexivity | lia].
Qed.

End MergingFacts.

Module DeduplicateClaims.
Import Frame Merging MergingFacts.

Definition null_doi_frame : frame :=
  mkFrame ["doi"; "title"]
    [[("doi", None); ("title", Some "A")];
     [("doi", None); ("title", Some "B")]].

Definition two_doi_frame : frame :=
  mkFrame ["doi"; "title"]
    [[("doi", Some "10.1/x"); ("title", Some "A")];
     [("doi", Some "10.1/X "); ("title", Some "B")]].

(** The row [r] of a two-column input extended with its normalised DOI. *)
Definition with_norm (doi title : cell) (nd : string) : row :=
  [("doi", doi); ("title", title); ("_norm_doi", Some nd)].

Lemma unique_rel_singleton {K : Type} (key : row -> K) x :
  unique_rel key [x] [x].
Proof.
  exists [x]. split; [repeat constructor |].
  split; [repeat constructor; simpl; tauto |].
  split; [| apply Permutation_refl].
  intros y [<- | []]. exists x. split; [left |]; reflexivity.
Qed.

(** Keep one of two rows with the same key. *)
Lemma unique_rel_pick_first {K : Type} (key : row -> K) x y :
  key x = key y -> unique_rel key [x; y] [x].
Proof.
  intros Hk. exists [x]. split; [repeat constructor |].
  split; [repeat constructor; simpl; tauto |].
  split; [| apply Permutation_refl].
  intros z [<- | [<- | []]]; exists x; (split; [left; reflexivity | auto]).
Qed.

Lemma unique_rel_pick_second {K : Type} (key : row -> K) x y :
  key x = key y -> unique_rel key [x; y] [y].
Proof.
  intros Hk. exists [y]. split; [repeat constructor |].
  split; [repeat constructor; simpl; tauto |].
  split; [| apply Permutation_refl].
  intros z [<- | [<- | []]]; exists y; (split; [left; reflexivity | auto]).
Qed.

Lemma single_input_height {K : Type} (key : row -> K) df out x :
  rows df = [x] -> unique_frame_rel key df out -> height out = 1.
Proof.
  intros E Hu. apply (unique_frame_rel_height key df out); [| rewrite E; discriminate | exact Hu].
  rewrite E. intros a b [<- | []] [<- | []]. reflexivity.
Qed.

(** Both rows of a two-row input normalise to the same DOI [nd]: every
    frame [deduplicate] may return has exactly one row, and one of them
    keeps only the second input row. *)
Lemma deduplicate_same_norm_doi (d1 d2 t1 t2 : cell) (nd : string) :
  Cleaning.normalize_doi (mkFrame ["doi"; "title"] [[("doi", d1); ("title", t1)]; [("doi", d2); ("title", t2)]])
    "doi" (Some "_norm_doi")
  = mkFrame ["doi"; "title"; "_norm_doi"] [with_norm d1 t1 nd; with_norm d2 t2 nd] ->
  (forall out, deduplicate_rel (mkFrame ["doi"; "title"] [[("doi", d1); ("title", t1)]; [("doi", d2); ("title", t2)]])
                 "doi" "title" out -> height out = 1) /\
  deduplicate_rel (mkFrame ["doi"; "title"] [[("doi", d1); ("title", t1)]; [("doi", d2); ("title", t2)]])
    "doi" "title" (mkFrame ["doi"; "title"; "_norm_doi"] [with_norm d2 t2 nd]).
Proof.
  intros Hn. unfold deduplicate_rel. cbv zeta. rewrite Hn. split.
  - intros out (dnd & nd0 & H1 & H2 & H3). simpl in H1, H2. subst nd0.
    assert (Hd : height dnd = 1).
    { refine (unique_frame_rel_height _ _ _ _ _ H1).
      - intros a b Ha Hb. simpl in Ha, Hb.
        destruct Ha as [<- | [<- | []]]; destruct Hb as [<- | [<- | []]]; reflexivity.
      - simpl. discriminate. }
    unfold height in Hd. simpl in H3.
    destruct (rows dnd) as [| x [| ? ?]] eqn:Er; simpl in Hd; try discriminate.
    eapply single_input_height; [| exact H3]. reflexivity.
  - exists (mkFrame ["doi"; "title"; "_norm_doi"] [with_norm d2 t2 nd]).
    exists (mkFrame ["doi"; "title"; "_norm_doi"] []).
    simpl. split; [| split; [reflexivity |]].
    + split; [reflexivity |]. apply unique_rel_pick_second. reflexivity.
    + split; [reflexivity |]. apply unique_rel_singleton.
Qed.

(** C2 fails on the code: (1) two rows without DOI and with different
    titles come out as a single row, since [normalize_doi] maps both null
    DOIs to [""] and the title branch never runs; (2) of the rows with
    DOIs [10.1/x] and [10.1/X ] exactly one survives, but [unique] with
    [keep="any"] may keep the later one. *)
Theorem deduplicate_collapses_doiless_rows :
  (exists out, deduplicate_rel null_doi_frame "doi" "title" out) /\
  (forall out, deduplicate_rel null_doi_frame "doi" "title" out -> height out = 1) /\
  (forall out, deduplicate_rel two_doi_frame "doi" "title" out -> height out = 1) /\
  deduplicate_rel two_doi_frame "doi" "title"
    (mkFrame ["doi"; "title"; "_norm_doi"] [with_norm (Some "10.1/X ") (Some "B") "10.1/x"]).
Proof.
  destruct (deduplicate_same_norm_doi None None (Some "A") (Some "B") ""
              ltac:(vm_compute; reflexivity)) as [Hall Hex].
  destruct (deduplicate_same_norm_doi (Some "10.1/x") (Some "10.1/X ") (Some "A") (Some "B") "10.1/x"
              ltac:(vm_compute; reflexivity)) as [Hall2 Hex2].
  split; [eexists; exact Hex |].
  split; [exact Hall |].
  split; [exact Hall2 | exact Hex2].
Qed.

Definition single_row_frame : frame :=
  mkFrame ["doi"; "title"] [[("doi", Some "10.1/x"); ("title", Some "A")]].

(** C3 fails on the code: on a one-row input, which has no duplicate DOI
    or title, every frame [deduplicate] may return carries the helper
    column [_norm_doi], so none equals the input. *)
Lemma deduplicate_keeps_norm_doi_column :
  (exists out, deduplicate_rel single_row_frame "doi" "title" out) /\
  (forall out, deduplicate_rel single_row_frame "doi" "title" out ->
     columns out = ["doi"; "title"; "_norm_doi"] /\ out <> single_row_frame).
Proof.
  unfold deduplicate_rel. cbv zeta.
  rewrite (eq_refl : Cleaning.normalize_doi single_row_frame "doi" (Some "_norm_doi")
                     = mkFrame ["doi"; "title"; "_norm_doi"] [with_norm (Some "10.1/x") (Some "A") "10.1/x"]).
  split.
  - exists (mkFrame ["doi"; "title"; "_norm_doi"] [with_norm (Some "10.1/x") (Some "A") "10.1/x"]).
    exists (mkFrame ["doi"; "title"; "_norm_doi"] [with_norm (Some "10.1/x") (Some "A") "10.1/x"]).
    exists (mkFrame ["doi"; "title"; "_norm_doi"] []).
    simpl. split; [| split; [reflexivity |]].
    + split; [reflexivity | apply unique_rel_singleton].
    + split; [reflexivity | apply unique_rel_singleton].
  - intros out (dnd & nd0 & H1 & H2 & H3). simpl in H1.
    destruct H1 as [Hc _]. destruct H3 as [Hc3 _]. simpl in Hc, Hc3.
    assert (Hcols : columns out = ["doi"; "title"; "_norm_doi"]) by (rewrite Hc3, Hc; reflexivity).
    split; [exact Hcols |].
    intros E. rewrite E in Hcols. discriminate.
Qed.

End DeduplicateClaims.

(* ------------------------------------------------------------------ *)
(** ** Candidate selection *)

Module MatchingFacts.
Import Frame Matching.

Lemma lcs_le_left (xs ys : list ascii) : (lcs xs ys <= List.length xs)%nat.
Proof.
  revert ys. induction xs as [| x xs IH]; intros ys; simpl; [lia |].
  induction ys as [| y ys IHys]; simpl in *; [lia |].
  destruct (Ascii.eqb x y).
  - specialize (IH ys). lia.
  - specialize (IH (y :: ys)). lia.
Qed.

Lemma lcs_le_right (xs ys : list ascii) : (lcs xs ys <= List.length ys)%nat.
Proof.
  revert ys. induction xs as [| x xs IH]; intros ys; simpl; [lia |].
  induction ys as [| y ys IHys]; simpl in *; [lia |].
  destruct (Ascii.eqb x y).
  - specialize (IH ys). lia.
  - specialize (IH (y :: ys)). simpl in IH. lia.
Qed.

Lemma length_list_ascii (s : string) : List.length (list_ascii_of_string s) = String.length s.
Proof. induction s; simpl; congruence. Qed.

Local Open Scope Q_scope.
Local Open Scope list_scope.

Lemma ratio_bounds (a b : string) : 0 <= ratio a b <= 1.
Proof.
  unfold ratio.
  destruct (Nat.eqb (String.length a + String.length b) 0) eqn:E.
  - split; discriminate.
  - apply Nat.eqb_neq in E.
    pose proof (lcs_le_left (list_ascii_of_string a) (list_ascii_of_string b)) as H1.
    pose proof (lcs_le_right (list_ascii_of_string a) (list_ascii_of_string b)) as H2.
    rewrite length_list_ascii in H1, H2.
    unfold indel_distance.
    set (l := (String.length a + String.length b)%nat) in *.
    set (d := (l - 2 * lcs (list_ascii_of_string a) (list_ascii_of_string b))%nat).
    assert (Hd : (d <= l)%nat) by (unfold d, l; lia).
    assert (Hl : 0 < inject_Z (Z.of_nat l)).
    { change 0 with (inject_Z 0). rewrite <- Zlt_Qlt. lia. }
    assert (Hq0 : 0 <= inject_Z (Z.of_nat d) / inject_Z (Z.of_nat l)).
    { apply Qle_shift_div_l; [exact Hl |]. rewrite Qmult_0_l.
      change 0 with (inject_Z 0). rewrite <- Zle_Qle. apply Nat2Z.is_nonneg. }
    assert (Hq1 : inject_Z (Z.of_nat d) / inject_Z (Z.of_nat l) <= 1).
    { apply Qle_shift_div_r; [exact Hl |]. rewrite Qmult_1_l.
      rewrite <- Zle_Qle. apply Nat2Z.inj_le. exact Hd. }
    generalize dependent (inject_Z (Z.of_nat d) / inject_Z (Z.of_nat l)).
    intros x Hx0 Hx1. split; lra.
Qed.

(** The loop keeps the first candidate whose score beats every score
    before it. *)
Lemma best_loop_spec (t : string) (ws : list work) (b : option work) (bs : Q) :
  let '(b', bs') := best_loop t ws b bs in
  (Forall (fun v => score t v <= bs) ws /\ b' = b /\ bs' = bs) \/
  (exists pre w post, ws = pre ++ w :: post /\ b' = Some w /\ bs' = score t w /\
     bs < score t w /\ Forall (fun v => score t v < score t w) pre /\
     Forall (fun v => score t v <= score t w) post).
Proof.
  revert b bs. induction ws as [| w ws IH]; intros b bs; simpl.
  - left. repeat split; constructor.
  - destruct (Qle_bool (score t w) bs) eqn:E.
    + apply Qle_bool_iff in E.
      specialize (IH b bs). destruct (best_loop t ws b bs) as [b' bs'].
      destruct IH as [(Hall & -> & ->) | (pre & w' & post & -> & -> & -> & Hlt & Hpre & Hpost)].
      * left. repeat split; auto.
      * right. exists (w :: pre), w', post. repeat split; auto.
        constructor; [| exact Hpre]. eapply Qle_lt_trans; eassumption.
    + assert (Hlt : bs < score t w).
      { apply Qnot_le_lt. intros Hle. apply Qle_bool_iff in Hle. congruence. }
      specialize (IH (Some w) (score t w)).
      destruct (best_loop t ws (Some w) (score t w)) as [b' bs'].
      right.
      destruct IH as [(Hall & -> & ->) | (pre & w' & post & -> & -> & -> & Hlt' & Hpre & Hpost)].
      * exists [], w, ws. repeat split; auto.
      * exists (w :: pre), w', post. repeat split; auto.
        -- eapply Qlt_trans; eassumption.
Qed.

(** Two decompositions of one list at a first maximum pick the same
    element. *)
Lemma first_max_unique (t : string) (pre1 post1 pre2 post2 : list work) (w1 w2 : work) :
  pre1 ++ w1 :: post1 = pre2 ++ w2 :: post2 ->
  Forall (fun v => score t v < score t w1) pre1 ->
  Forall (fun v => score t v <= score t w1) post1 ->
  Forall (fun v => score t v < score t w2) pre2 ->
  Forall (fun v => score t v <= score t w2) post2 ->
  w1 = w2.
Proof.
  revert pre2. induction pre1 as [| x pre1 IH]; intros pre2 E Hp1 Hq1 Hp2 Hq2.
  - destruct pre2 as [| y pre2]; simpl in E; injection E as E1 E2; [exact E1 |].
    subst y. exfalso.
    apply Forall_inv in Hp2.
    assert (Hin : In w2 post1) by (rewrite E2; apply in_or_app; right; left; reflexivity).
    rewrite Forall_forall in Hq1. specialize (Hq1 _ Hin).
    apply (Qlt_not_le _ _ Hp2 Hq1).
  - destruct pre2 as [| y pre2]; simpl in E; injection E as E1 E2.
    + subst x. exfalso.
      apply Forall_inv in Hp1.
      assert (Hin : In w1 post2) by (rewrite <- E2; apply in_or_app; right; left; reflexivity).
      rewrite Forall_forall in Hq2. specialize (Hq2 _ Hin).
      apply (Qlt_not_le _ _ Hp1 Hq2).
    + apply (IH pre2 E2 (Forall_inv_tail Hp1) Hq1 (Forall_inv_tail Hp2) Hq2).
Qed.

(** C4 (amended): every Levenshtein ratio lies in [0, 1]; [select_best]
    returns candidate [w] exactly when [w] is the first candidate of
    maximal score, that score is positive, and it is at least the
    threshold. *)
Theorem select_best_first_maximum :
  (forall a b : string, 0 <= ratio a b <= 1) /\
  (forall (threshold : Q) (t : string) (ws : list work) (w : work),
     select_best threshold t ws = Some w <->
     exists pre post, ws = pre ++ w :: post /\
       Forall (fun v => score t v < score t w) pre /\
       Forall (fun v => score t v <= score t w) post /\
       0 < score t w /\ threshold <= score t w).
Proof.
  split; [exact ratio_bounds |].
  intros threshold t ws w. unfold select_best.
  pose proof (best_loop_spec t ws None 0) as Hspec.
  destruct (best_loop t ws None 0) as [b' bs'].
  split.
  - intros Hsel.
    destruct Hspec as [(_ & -> & _) | (pre & w' & post & Hws & -> & -> & Hpos & Hpre & Hpost)];
      [discriminate |].
    destruct (Qle_bool threshold (score t w')) eqn:Eth; [| discriminate].
    injection Hsel as <-. apply Qle_bool_iff in Eth.
    exists pre, post. repeat split; assumption.
  - intros (pre & post & Hws & Hpre & Hpost & Hpos & Hth).
    destruct Hspec as [(Hall & -> & ->) | (pre' & w' & post' & Hws' & -> & -> & Hpos' & Hpre' & Hpost')].
    + exfalso. rewrite Forall_forall in Hall.
      assert (Hin : In w ws) by (rewrite Hws; apply in_or_app; right; left; reflexivity).
      specialize (Hall _ Hin). apply (Qlt_not_le _ _ Hpos Hall).
    + assert (w' = w).
      { apply (first_max_unique t pre' post' pre post); [congruence | assumption ..]. }
      subst w'. apply Qle_bool_iff in Hth. rewrite Hth. reflexivity.
Qed.

(** A candidate sharing no character with the searched title. *)
Definition disjoint_work : work := mkWork (Some "abc") (Some "W1") None [].

(** C4 as stated fails at threshold 0: the only candidate has the maximal
    score 0, which is at least the threshold, and yet none is selected,
    because [best_score] starts at [0.0] and only a strictly larger score
    replaces it. *)
Lemma select_best_zero_threshold :
  score "xyz" disjoint_work == 0 /\ 0 <= score "xyz" disjoint_work /\
  select_best 0 "xyz" [disjoint_work] = None.
Proof.
  split; [vm_compute; reflexivity |].
  split; [vm_compute; discriminate | vm_compute; reflexivity].
Qed.

End MatchingFacts.

(* ------------------------------------------------------------------ *)
(** ** The matching pass *)

Module ResolveFacts.
Import Frame Matching FrameFacts.

(** A lookup in which every [Exception] is replaced by an empty result. *)
Definition exceptions_as_empty (lookup : string -> lookup_result) (t : string) : lookup_result :=
  match lookup t with
  | RaisedException => Found (Some [])
  | r => r
  end.

Lemma search_one_exceptions_as_empty lookup threshold t :
  search_one lookup threshold t = search_one (exceptions_as_empty lookup) threshold t.
Proof.
  unfold search_one, exceptions_as_empty.
  destruct (lookup t); reflexivity.
Qed.

Lemma search_all_exceptions_as_empty lookup threshold ts :
  search_all lookup threshold ts = search_all (exceptions_as_empty lookup) threshold ts.
Proof.
  induction ts as [| t ts IH]; simpl; [reflexivity |].
  rewrite <- search_one_exceptions_as_empty, <- IH. reflexivity.
Qed.

Lemma search_all_none lookup threshold ts :
  search_all lookup threshold ts = None <->
  exists t, In t ts /\ lookup t = RaisedBaseException.
Proof.
  induction ts as [| t ts IH]; simpl.
  - split; [discriminate | intros (t & [] & _)].
  - unfold search_one at 1.
    destruct (lookup t) eqn:Et.
    + destruct (search_all lookup threshold ts) eqn:Er.
      * split; [discriminate |].
        intros (t' & [<- | Hin] & Ht'); [congruence |].
        assert (Hn : Some l = None) by (apply IH; exists t'; split; assumption). discriminate.
      * split; [intros _ | reflexivity].
        destruct (proj1 IH eq_refl) as (t' & Hin & Ht'). exists t'. split; [right |]; assumption.
    + destruct (search_all lookup threshold ts) eqn:Er.
      * split; [discriminate |].
        intros (t' & [<- | Hin] & Ht'); [congruence |].
        assert (Hn : Some l = None) by (apply IH; exists t'; split; assumption). discriminate.
      * split; [intros _ | reflexivity].
        destruct (proj1 IH eq_refl) as (t' & Hin & Ht'). exists t'. split; [right |]; assumption.
    + split; [intros _ | reflexivity]. exists t. split; [left; reflexivity | exact Et].
Qed.

(** C8 (amended): an [Exception] raised by the lookup of a title counts as
    an empty candidate list: the whole pass gives what it gives when that
    lookup returns no candidates, the title contributes no candidate, and
    the candidate loop stops early only on a lookup raising a
    [BaseException] that is no [Exception]. *)
Theorem resolve_lookup_exception_is_zero_candidates :
  (forall (lookup : string -> lookup_result) (df : frame)
          (title_col doi_col id_col : string) (threshold : Q),
     resolve_missing_ids lookup df title_col doi_col id_col threshold
     = resolve_missing_ids (exceptions_as_empty lookup) df title_col doi_col id_col threshold) /\
  (forall (lookup : string -> lookup_result) (threshold : Q) (t : string),
     lookup t = RaisedException -> search_one lookup threshold t = Some None) /\
  (forall (lookup : string -> lookup_result) (threshold : Q) (ts : list string),
     search_all lookup threshold ts = None <->
     exists t, In t ts /\ lookup t = RaisedBaseException).
Proof.
  split; [| split].
  - intros lookup df title_col doi_col id_col threshold.
    unfold resolve_missing_ids. rewrite <- search_all_exceptions_as_empty. reflexivity.
  - intros lookup threshold t Ht. unfold search_one. rewrite Ht. reflexivity.
  - exact search_all_none.
Qed.

Definition one_title_frame : frame :=
  mkFrame ["title"; "id"; "doi"] [[("title", Some "T"); ("id", None); ("doi", None)]].

(** C8 as stated fails for a lookup raising a [BaseException] outside
    [Exception] (such as [asyncio.CancelledError]): [except Exception]
    does not catch it and the pass raises; an [Exception] is absorbed. *)
Lemma resolve_cancelled_lookup_raises :
  resolve_missing_ids (fun _ => RaisedBaseException) one_title_frame "title" "doi" "id" (9 # 10)
    = Raises /\
  resolve_missing_ids (fun _ => RaisedException) one_title_frame "title" "doi" "id" (9 # 10)
    = Returns one_title_frame.
Proof. split; vm_compute; reflexivity. Qed.

Lemma row_get_drop_neq (r : row) (k c : string) :
  c <> k -> row_get (row_drop r k) c = row_get r c.
Proof.
  intros Hne. induction r as [| [k' v] r IH]; simpl; [reflexivity |].
  destruct (String.eqb k k') eqn:E.
  - apply String.eqb_eq in E; subst k'.
    apply String.eqb_neq in Hne. rewrite Hne. exact IH.
  - simpl. destruct (String.eqb c k'); [reflexivity | exact IH].
Qed.

Lemma find_candidate_some (cs : list candidate) (t : string) (c : candidate) :
  find_candidate cs t = Some c -> In c cs /\ search_title c = t.
Proof.
  induction cs as [| c' cs IH]; simpl; [discriminate |].
  destruct (String.eqb (search_title c') t) eqn:E.
  - intros [=<-]. apply String.eqb_eq in E. split; [left |]; auto.
  - intros H. destruct (IH H). split; [right |]; auto.
Qed.

(** Every candidate of the loop comes from a successful lookup of its
    title and its selected work. *)
Lemma search_all_in (lookup : string -> lookup_result) (threshold : Q)
    (ts : list string) (cs : list candidate) (c : candidate) :
  search_all lookup threshold ts = Some cs -> In c cs ->
  exists ws w, lookup (search_title c) = Found ws /\
    select_best threshold (search_title c) (works_list ws) = Some w /\
    oa_id c = work_id w /\ oa_doi c = work_doi w.
Proof.
  revert cs. induction ts as [| t ts IH]; intros cs; simpl.
  - intros [=<-] [].
  - destruct (search_one lookup threshold t) as [copt |] eqn:E1; [| discriminate].
    destruct (search_all lookup threshold ts) as [cs' |] eqn:E2; [| discriminate].
    intros [=<-] Hin.
    destruct copt as [x |]; [destruct Hin as [<- | Hin] |];
      [| eapply IH; [reflexivity | exact Hin] | eapply IH; [reflexivity | exact Hin]].
    unfold search_one in E1.
    destruct (lookup t) as [ws | |] eqn:Et; simpl in E1; try discriminate.
    destruct (select_best threshold t (works_list ws)) as [w |] eqn:Es; simpl in E1; [| discriminate].
    injection E1 as <-. simpl. exists ws, w. repeat split; assumption.
Qed.

Lemma forall2_map_self {A : Type} (P : A -> A -> Prop) (f : A -> A) (l : list A) :
  (forall x, In x l -> P x (f x)) -> Forall2 P l (map f l).
Proof.
  induction l as [| x l IH]; simpl; intros H; constructor; auto.
Qed.

Lemma filter_all_true {A : Type} (f : A -> bool) (l : list A) :
  (forall x, In x l -> f x = true) -> filter f l = l.
Proof.
  induction l as [| x l IH]; simpl; intros H; [reflexivity |].
  rewrite (H x (or_introl eq_refl)), IH; auto.
Qed.

Lemma has_column_false_not_in (df : frame) (k c : string) :
  has_column df k = false -> In c (columns df) -> c <> k.
Proof.
  unfold has_column. intros Hf Hin Heq. subst k.
  assert (existsb (String.eqb c) (columns df) = true)
    by (apply existsb_exists; exists c; split; [exact Hin | apply String.eqb_refl]).
  congruence.
Qed.

(** The value [v] written into a null cell comes from the work selected
    for the row's title. *)
Definition filled_from_lookup (lookup : string -> lookup_result) (threshold : Q)
    (title_col : string) (field : work -> option string) (r : row) (v : cell) : Prop :=
  exists t ws w, row_get r title_col = Some t /\ lookup t = Found ws /\
    select_best threshold t (works_list ws) = Some w /\ v = field w.

Definition row_preserved (lookup : string -> lookup_result) (threshold : Q)
    (title_col doi_col id_col : string) (cols : list string) (r r' : row) : Prop :=
  (forall c, In c cols -> c <> id_col -> c <> doi_col -> row_get r' c = row_get r c) /\
  (forall v, row_get r id_col = Some v -> row_get r' id_col = Some v) /\
  (forall v, row_get r doi_col = Some v -> row_get r' doi_col = Some v) /\
  (row_get r id_col = None ->
     row_get r' id_col = None \/
     filled_from_lookup lookup threshold title_col work_id r (row_get r' id_col)) /\
  (row_get r doi_col = None ->
     row_get r' doi_col = None \/
     filled_from_lookup lookup threshold title_col work_doi r (row_get r' doi_col)).

Lemma has_column_true_in (df : frame) (k : string) :
  has_column df k = true -> In k (columns df).
Proof.
  unfold has_column. intros H. apply existsb_exists in H as [x [Hin Hx]].
  apply String.eqb_eq in Hx. subst x. exact Hin.
Qed.

Lemma has_column_app (cs extra : list string) (rs : list row) (k : string) :
  has_column (mkFrame (cs ++ extra) rs) k =
    existsb (String.eqb k) cs || existsb (String.eqb k) extra.
Proof. unfold has_column. simpl. apply existsb_app. Qed.

(** The gap filling of [resolve_missing_ids].  When the id, title and doi columns exist and are
    distinct, and no input column is named [oa_id], [oa_doi] or
    [search_title], a result of [resolve_missing_ids] has the input's
    columns and, row by row: a non-null id or doi is kept, a null id or doi
    stays null or receives the id or doi of the work [select_best] picked
    for the row's title from its lookup, and every other column is
    unchanged. *)
Theorem resolve_missing_ids_fills_only_gaps (lookup : string -> lookup_result) (df : frame) (title_col doi_col id_col : string)
    (threshold : Q) (out : frame) :
  has_column df title_col = true -> has_column df id_col = true ->
  has_column df doi_col = true -> id_col <> doi_col ->
  has_column df "oa_id" = false -> has_column df "oa_doi" = false ->
  has_column df "search_title" = false ->
  resolve_missing_ids lookup df title_col doi_col id_col threshold = Returns out ->
  columns out = columns df /\
  Forall2 (row_preserved lookup threshold title_col doi_col id_col (columns df))
          (rows df) (rows out).
Proof.
  intros Ht Hi Hd Hne Hoi Hod Hst.
  unfold resolve_missing_ids. rewrite Hi, Ht. simpl.
  destruct (search_all lookup threshold (to_search df title_col id_col)) as [cands |] eqn:Hs;
    [| discriminate].
  destruct cands as [| c0 cs0].
  - intros [=<-]. split; [reflexivity |].
    rewrite <- (map_id (rows df)) at 2. apply forall2_map_self.
    intros r _. repeat split; auto.
  - set (cands := c0 :: cs0) in *. clearbody cands.
    unfold left_join_candidates, right_name. rewrite Hoi, Hod. cbn beta iota.
    rewrite Hoi, Hod. change (String.eqb "oa_id" "oa_doi") with false. cbn [orb negb].
    rewrite has_column_app. unfold has_column at 1 in Hd. rewrite Hd. cbn [orb negb].
    apply String.eqb_neq in Hne. rewrite Hne. cbn [orb negb].
    intros [=<-].
    rewrite !has_column_app. unfold has_column in Hoi, Hod, Hst. rewrite Hoi, Hod, Hst.
    change (existsb (String.eqb "oa_id") ["oa_id"; "oa_doi"]) with true.
    change (existsb (String.eqb "oa_doi") ["oa_id"; "oa_doi"]) with true.
    change (existsb (String.eqb "search_title") ["oa_id"; "oa_doi"]) with false.
    cbn [orb fold_left]. unfold drop. cbn [columns rows].
    split.
    + rewrite !filter_app.
      rewrite (filter_all_true (fun c => negb ("oa_id" =? c)) (columns df)).
      2:{ intros x Hx. apply negb_true_iff, String.eqb_neq.
          intros <-. exact (has_column_false_not_in df _ _ Hoi Hx eq_refl). }
      rewrite (filter_all_true (fun c => negb ("oa_doi" =? c)) (columns df)).
      2:{ intros x Hx. apply negb_true_iff, String.eqb_neq.
          intros <-. exact (has_column_false_not_in df _ _ Hod Hx eq_refl). }
      simpl. apply app_nil_r.
    + rewrite !map_map. apply forall2_map_self. intros r Hr.
      assert (Hnot : forall c, In c (columns df) -> c <> "oa_id" /\ c <> "oa_doi")
        by (intros c Hc; split; [exact (has_column_false_not_in df _ _ Hoi Hc)
                                 | exact (has_column_false_not_in df _ _ Hod Hc)]).
      pose proof (has_column_true_in _ _ Hi) as Ini.
      pose proof (has_column_true_in _ _ Hd) as Ind.
      apply String.eqb_neq in Hne.
      remember (match row_get r title_col with
                | Some t => find_candidate cands t
                | None => None
                end) as cand eqn:Ecand.
      assert (Hcand : forall x, cand = Some x ->
                exists t ws w, row_get r title_col = Some t /\ lookup t = Found ws /\
                  select_best threshold t (works_list ws) = Some w /\
                  oa_id x = work_id w /\ oa_doi x = work_doi w).
      { intros x Hx. subst cand. destruct (row_get r title_col) as [t |]; [| discriminate].
        apply find_candidate_some in Hx as [Hin Ht'].
        destruct (search_all_in _ _ _ _ _ Hs Hin) as (ws & w & Hl & Hb & Hi' & Hd').
        rewrite Ht' in Hl, Hb. exists t, ws, w. auto. }
      clear Ecand.
      remember (row_set (row_set r "oa_id" (match cand with Some x => oa_id x | None => None end))
                  "oa_doi" (match cand with Some x => oa_doi x | None => None end)) as J eqn:EJ.
      assert (HJ : forall c, In c (columns df) -> row_get J c = row_get r c).
      { intros c Hc. apply Hnot in Hc as [H1 H2]. subst J.
        rewrite !row_get_set_neq by assumption. reflexivity. }
      assert (Hfin : forall c, In c (columns df) ->
                row_get (row_drop (row_drop (row_set (row_set J id_col (fill_null_from J id_col "oa_id"))
                   doi_col (fill_null_from J doi_col "oa_doi")) "oa_id") "oa_doi") c =
                row_get (row_set (row_set J id_col (fill_null_from J id_col "oa_id"))
                   doi_col (fill_null_from J doi_col "oa_doi")) c).
      { intros c Hc. apply Hnot in Hc as [H1 H2].
        rewrite !row_get_drop_neq by assumption. reflexivity. }
      assert (Hid : row_get (row_set (row_set J id_col (fill_null_from J id_col "oa_id"))
                   doi_col (fill_null_from J doi_col "oa_doi")) id_col =
                    fill_null_from J id_col "oa_id").
      { rewrite row_get_set_neq by exact Hne. apply row_get_set_eq. }
      unfold row_preserved, filled_from_lookup. repeat split.
      * intros c Hc Hci Hcd. rewrite (Hfin c Hc).
        rewrite !row_get_set_neq by assumption. apply HJ; exact Hc.
      * intros v Hv. rewrite (Hfin _ Ini), Hid. unfold fill_null_from.
        rewrite (HJ _ Ini), Hv. reflexivity.
      * intros v Hv. rewrite (Hfin _ Ind), row_get_set_eq. unfold fill_null_from.
        rewrite (HJ _ Ind), Hv. reflexivity.
      * intros Hn. rewrite (Hfin _ Ini), Hid. unfold fill_null_from.
        rewrite (HJ _ Ini), Hn. subst J.
        rewrite row_get_set_neq by discriminate. rewrite row_get_set_eq.
        destruct cand as [x |]; [right | left; reflexivity].
        destruct (Hcand x eq_refl) as (t & ws & w & H1 & H2 & H3 & H4 & H5).
        exists t, ws, w. auto.
      * intros Hn. rewrite (Hfin _ Ind), row_get_set_eq. unfold fill_null_from.
        rewrite (HJ _ Ind), Hn. subst J. rewrite row_get_set_eq.
        destruct cand as [x |]; [right | left; reflexivity].
        destruct (Hcand x eq_refl) as (t & ws & w & H1 & H2 & H3 & H4 & H5).
        exists t, ws, w. auto.
Qed.

Definition found_work : work := mkWork (Some "T") (Some "W1") (Some "10.1/w") [].

Definition gap_frame_filled : frame :=
  mkFrame ["title"; "id"; "doi"]
    [[("title", Some "T"); ("id", Some "W1"); ("doi", Some "10.1/w")]].

Lemma resolve_missing_ids_fills_only_gaps_witness :
  resolve_missing_ids (fun _ => Found (Some [found_work])) one_title_frame
    "title" "doi" "id" (9#10) = Returns gap_frame_filled /\
  columns gap_frame_filled = columns one_title_frame /\
  Forall2 (row_preserved (fun _ => Found (Some [found_work])) (9#10) "title" "doi" "id"
             (columns one_title_frame))
          (rows one_title_frame) (rows gap_frame_filled).
Proof.
  assert (E : resolve_missing_ids (fun _ => Found (Some [found_work])) one_title_frame
                "title" "doi" "id" (9#10) = Returns gap_frame_filled)
    by (vm_compute; reflexivity).
  split; [exact E |].
  apply (resolve_missing_ids_fills_only_gaps (fun _ => Found (Some [found_work]))
           one_title_frame "title" "doi" "id" (9#10) gap_frame_filled);
    [reflexivity | reflexivity | reflexivity | discriminate
    | reflexivity | reflexivity | reflexivity | exact E].
Defined.

(** An input that already has an [oa_id] column: its row has a null id and
    [oa_id = "Z"]. *)
Definition oa_id_frame : frame :=
  mkFrame ["title"; "id"; "doi"; "oa_id"]
    [[("title", Some "T"); ("id", None); ("doi", None); ("oa_id", Some "Z")]].

(** Claim C7, a defect of the code.  On an input that already has an
    [oa_id] column, the joined id column is renamed [oa_id_right] and
    [pl.col("oa_id")] reads the input's own column: the null id is filled
    with "Z" from the input, not with the found candidate's "W1"; the
    input's [oa_id] column is dropped and [oa_id_right] is left in the
    result. *)
Lemma resolve_missing_ids_input_oa_id_column :
  resolve_missing_ids (fun _ => Found (Some [found_work])) oa_id_frame
    "title" "doi" "id" (9#10) =
  Returns (mkFrame ["title"; "id"; "doi"; "oa_id_right"]
    [[("title", Some "T"); ("id", Some "Z"); ("doi", Some "10.1/w");
      ("oa_id_right", Some "W1")]]).
Proof. vm_compute. reflexivity. Qed.

End ResolveFacts.

(* ------------------------------------------------------------------ *)
Module HarvestFacts.
Import Harvest.
Local Open Scope nat_scope.
Local Open Scope list_scope.

(** The pages a list of dequeued items holds, sentinels left out. *)
Definition deq_pages {page : Type} (l : list (option page)) : list page :=
  flat_map (fun o => match o with Some p => [p] | None => [] end) l.

Section Run.
Context {page record : Type} (fetch_at : nat -> fetch page)
        (process : page -> option (list record)).

Lemma produces_det k ps ps' :
  produces fetch_at k ps -> produces fetch_at k ps' -> ps = ps'.
Proof.
  intros H; revert ps'; induction H; intros ps' H'; inversion H'; subst; try congruence.
  rewrite H in H2. injection H2 as -> ->. f_equal. apply IHproduces. assumption.
Qed.

(** The items the producer will still put, read off its control point. *)
Inductive pending : producer page -> list (option page) -> Prop :=
| pending_fetch k ps :
    produces fetch_at k ps -> pending (PFetch k) (map Some ps ++ [None])
| pending_put_more root k ps :
    produces fetch_at k ps -> pending (PPut root (Some k)) (Some root :: map Some ps ++ [None])
| pending_put_last root : pending (PPut root None) [Some root; None]
| pending_sentinel : pending PSentinel [None]
| pending_done : pending PDone [].

Variable pages : list page.
Hypothesis process_total : forall p, process p <> None.

Definition inv (s : state page record) (r : list (option page)) : Prop :=
  pending (prod s) r /\
  dequeued s ++ queue s ++ r = map Some pages ++ [None] /\
  (cons s = CRunning /\ ~ In None (dequeued s) \/
   cons s = CDone /\ dequeued s = map Some pages ++ [None]) /\
  final_records s = records_of process (deq_pages (dequeued s)).

Definition weight (s : state page record) (r : list (option page)) : nat :=
  3 * List.length r + List.length (queue s) +
  match prod s with PFetch _ => 1 | _ => 0 end.

Lemma sentinel_split (d rest : list (option page)) (ps : list page) :
  d ++ None :: rest = map Some ps ++ [None] -> d = map Some ps /\ rest = [].
Proof.
  revert ps; induction d as [| x d IH]; intros ps; simpl.
  - destruct ps as [| p ps]; simpl; intros H; injection H; [auto | discriminate].
  - destruct ps as [| p ps]; simpl; intros H; injection H as Hx H.
    + destruct d; discriminate.
    + apply IH in H as [-> ->]. subst x. auto.
Qed.

Lemma not_in_none_map (ps : list page) : ~ In None (map Some ps).
Proof. rewrite in_map_iff. intros [x [H _]]. discriminate. Qed.

Lemma inv_step s s' r :
  inv s r -> step fetch_at process s s' ->
  exists r', inv s' r' /\ weight s' r' < weight s r.
Proof.
  intros (Hp & Heq & Hc & Hf) Hst.
  destruct Hst; simpl in *.
  - (* fetch a page *)
    inversion Hp; subst. inversion H1; subst; try congruence.
    + rewrite H in H0; injection H0 as <- <-. rewrite H2.
      exists [Some root; None]. unfold inv, weight; simpl. repeat split; auto; [constructor | lia].
    + rewrite H in H0; injection H0 as <- <-. rewrite H2.
      exists (Some root :: map Some ps0 ++ [None]). unfold inv, weight; simpl.
      repeat split; auto; [constructor; assumption | lia].
  - (* the request raises *)
    inversion Hp; subst. inversion H1; subst; try congruence.
    exists [None]. unfold inv, weight; simpl. repeat split; auto; [constructor | lia].
  - (* no records match *)
    inversion Hp; subst. inversion H1; subst; try congruence.
    exists [None]. unfold inv, weight; simpl. repeat split; auto; [constructor | lia].
  - (* put a page *)
    inversion Hp; subst.
    + exists (map Some ps ++ [None]). unfold inv, weight; simpl.
      repeat split; auto; [apply pending_fetch; assumption | | ].
      * rewrite <- (app_assoc q). exact Heq.
      * rewrite !length_app. simpl. lia.
    + exists [None]. unfold inv, weight; simpl.
      repeat split; auto; [constructor | | ].
      * rewrite <- (app_assoc q). exact Heq.
      * rewrite !length_app. simpl. lia.
  - (* put the sentinel *)
    inversion Hp; subst.
    exists []. unfold inv, weight; simpl.
    repeat split; auto; [constructor | | ].
    + rewrite <- (app_assoc q). exact Heq.
    + rewrite !length_app. simpl. lia.
  - (* take the sentinel *)
    apply sentinel_split in Heq as [-> Hr].
    exists r. unfold inv, weight; simpl. repeat split; auto.
    + rewrite Hr. apply app_nil_r.
    + rewrite Hf. unfold deq_pages. rewrite flat_map_app. simpl. rewrite app_nil_r. reflexivity.
    + destruct q; simpl; lia.
  - (* take a page *)
    exists r. unfold inv, weight; simpl. repeat split; auto.
    + rewrite <- app_assoc. exact Heq.
    + destruct Hc as [[_ Hn] | [Hc _]]; [| discriminate].
      left. split; [reflexivity |]. rewrite in_app_iff. simpl. intuition discriminate.
    + rewrite Hf. unfold deq_pages, records_of. rewrite !flat_map_app. simpl.
      rewrite H, app_nil_r. reflexivity.
    + lia.
  - (* processing raises *)
    exfalso. exact (process_total root H).
Qed.

Hypothesis chain : produces fetch_at 0 pages.

Lemma inv_init : inv init (map Some pages ++ [None]).
Proof.
  unfold inv, init; simpl. repeat split; auto.
  constructor. exact chain.
Qed.

Lemma inv_reachable s : reachable fetch_at process s -> exists r, inv s r.
Proof.
  induction 1 as [| s s' _ [r Hr] Hst].
  - exists (map Some pages ++ [None]). exact inv_init.
  - destruct (inv_step s s' r Hr Hst) as [r' [H _]]. exists r'. exact H.
Qed.

Lemma inv_acc n : forall s r, inv s r -> weight s r < n ->
  Acc (fun s' s => step fetch_at process s s') s.
Proof.
  induction n as [| n IH]; intros s r Hi Hw; [lia |].
  constructor. intros s' Hst.
  destruct (inv_step s s' r Hi Hst) as [r' [Hi' Hw']].
  apply (IH s' r' Hi'). lia.
Qed.

Lemma deq_pages_all (ps : list page) : deq_pages (map Some ps ++ [None]) = ps.
Proof.
  induction ps as [| p ps IH]; [reflexivity |].
  simpl. f_equal. exact IH.
Qed.

Lemma pending_nil p : pending p [] -> p = PDone.
Proof.
  inversion 1; subst; try reflexivity;
    match goal with H : _ = [] |- _ => apply (f_equal (@List.length _)) in H;
      rewrite ?length_app in H; simpl in H; lia end.
Qed.

Lemma inv_stuck s r : inv s r -> stuck fetch_at process s ->
  prod s = PDone /\ queue s = [] /\ cons s = CDone /\
  dequeued s = map Some pages ++ [None] /\ final_records s = records_of process pages.
Proof.
  destruct s as [p q c acc d]; unfold inv, stuck; simpl.
  intros (Hp & Heq & Hc & Hf) Hstuck.
  destruct Hc as [[-> Hn] | [-> Hd]].
  - exfalso. destruct q as [| [root |] q].
    + destruct p as [k | root next | |].
      * destruct (fetch_at k) as [| | root tok] eqn:E.
        -- eapply Hstuck. apply step_fetch_raised. exact E.
        -- eapply Hstuck. apply step_fetch_nomatch. exact E.
        -- eapply Hstuck. apply step_fetch_page. exact E.
      * eapply Hstuck. apply step_put. unfold QUEUE_MAXSIZE. simpl. lia.
      * eapply Hstuck. apply step_put_sentinel. unfold QUEUE_MAXSIZE. simpl. lia.
      * apply Hn. inversion Hp; subst.
        rewrite !app_nil_r in Heq. rewrite Heq. apply in_or_app. right. left. reflexivity.
    + destruct (process root) as [recs |] eqn:E; [| exact (process_total root E)].
      eapply Hstuck. apply step_get_page. exact E.
    + eapply Hstuck. apply step_get_sentinel.
  - subst d.
    assert (Hqr : q ++ r = []).
    { apply (f_equal (@List.length _)) in Heq. rewrite !length_app in Heq.
      destruct q, r; simpl in *; try reflexivity; lia. }
    apply app_eq_nil in Hqr as [-> ->].
    apply pending_nil in Hp as ->.
    repeat split; auto. rewrite Hf, deq_pages_all. reflexivity.
Qed.

(** The sentinel protocol of [_harvest_collection_concurrent].  Assume the consumer's work on a tree never raises
    and the cursor chain is finite, yielding [pages].  Then every run
    terminates; at every point the items put on the queue so far
    ([dequeued ++ queue]) are a prefix of the pages in order followed by
    one sentinel, the consumer has not failed, and it has left its loop
    exactly when it has taken every page and then the sentinel; and a run
    that cannot go on has put everything, emptied the queue, stopped on the
    sentinel and collected the records of every page. *)
Theorem harvest_sentinel_protocol :
  Acc (fun s' s => step fetch_at process s s') init /\
  (forall s, reachable fetch_at process s ->
     (exists rest, dequeued s ++ queue s ++ rest = map Some pages ++ [None]) /\
     cons s <> CFailed /\
     (cons s = CDone <-> dequeued s = map Some pages ++ [None])) /\
  (forall s, reachable fetch_at process s -> stuck fetch_at process s ->
     prod s = PDone /\ queue s = [] /\ cons s = CDone /\
     dequeued s = map Some pages ++ [None] /\
     final_records s = records_of process pages).
Proof.
  split; [| split].
  - exact (inv_acc _ init _ inv_init (Nat.lt_succ_diag_r _)).
  - intros s Hs. destruct (inv_reachable s Hs) as [r (Hp & Heq & Hc & Hf)].
    split; [exists r; exact Heq |].
    destruct Hc as [[-> Hn] | [-> Hd]]; (split; [discriminate | split]).
    + discriminate.
    + intros Hd. exfalso. apply Hn. rewrite Hd. apply in_or_app. right. left. reflexivity.
    + intros _. exact Hd.
    + intros _. reflexivity.
  - intros s Hs Hst. destruct (inv_reachable s Hs) as [r Hr].
    exact (inv_stuck s r Hr Hst).
Qed.

End Run.
End HarvestFacts.

Module HarvestExamples.
Import Harvest HarvestFacts.
Local Open Scope list_scope.

(** A two-page chain: the first response carries a token, the second none. *)
Definition two_pages_fetch (k : nat) : fetch nat :=
  match k with
  | 0 => Fetched 1 (Some "t")
  | 1 => Fetched 2 None
  | _ => NoRecordsMatch
  end.

Definition keep_page (p : nat) : option (list nat) := Some [p].

(** The consumer's work raises on page 1 (a record without a header). *)
Definition failing_process (p : nat) : option (list nat) :=
  if Nat.eqb p 1 then None else Some [p].

Lemma harvest_sentinel_protocol_witness :
  (forall p, keep_page p <> None) /\ produces two_pages_fetch 0 [1; 2] /\
  (Acc (fun s' s => step two_pages_fetch keep_page s s') init /\
   (forall s, reachable two_pages_fetch keep_page s ->
      (exists rest, dequeued s ++ queue s ++ rest = map Some [1; 2] ++ [None]) /\
      cons s <> CFailed /\
      (cons s = CDone <-> dequeued s = map Some [1; 2] ++ [None])) /\
   (forall s, reachable two_pages_fetch keep_page s -> stuck two_pages_fetch keep_page s ->
      prod s = PDone /\ queue s = [] /\ cons s = CDone /\
      dequeued s = map Some [1; 2] ++ [None] /\
      final_records s = records_of keep_page [1; 2])).
Proof.
  assert (Hp : forall p, keep_page p <> None) by (intros p; discriminate).
  assert (Hc : produces two_pages_fetch 0 [1; 2]).
  { eapply produces_more; [reflexivity | reflexivity |].
    eapply produces_last; reflexivity. }
  split; [exact Hp | split; [exact Hc |]].
  exact (harvest_sentinel_protocol two_pages_fetch keep_page [1; 2] Hp Hc).
Defined.

(** Claim C9, a defect of the code.  The consumer's header lookup is
    unguarded and it has no error handling, so a malformed record is not
    skipped.  With the consumer's work raising on page 1,
    a run reaches a state where nothing can move: the producer has put
    page 2 and the sentinel, the consumer has left its loop by the
    exception, and both are still on the queue. *)
Lemma harvest_consumer_raises_loses_pages :
  let s := mkState PDone [Some 2; None] CFailed [] [Some 1] in
  reachable two_pages_fetch failing_process s /\
  stuck two_pages_fetch failing_process s /\
  cons s = CFailed /\ In (Some 2) (queue s) /\ ~ In None (dequeued s).
Proof.
  intros s. split; [| split; [| split; [reflexivity | split; simpl; intuition discriminate]]].
  - apply reach_step with (mkState PDone [Some 1; Some 2; None] CRunning [] []);
      [| apply step_get_raises; reflexivity].
    apply reach_step with (mkState PSentinel [Some 1; Some 2] CRunning [] []);
      [| apply step_put_sentinel; unfold QUEUE_MAXSIZE; simpl; lia].
    apply reach_step with (mkState (PPut 2 None) [Some 1] CRunning [] []);
      [| apply step_put; unfold QUEUE_MAXSIZE; simpl; lia].
    apply reach_step with (mkState (PFetch 1) [Some 1] CRunning [] []);
      [| exact (step_fetch_page _ _ _ _ 1 2 None _ _ _ _ eq_refl)].
    apply reach_step with (mkState (PPut 1 (Some 1)) [] CRunning [] []);
      [| apply step_put; unfold QUEUE_MAXSIZE; simpl; lia].
    apply reach_step with init; [apply reach_init |].
    exact (step_fetch_page _ _ _ _ 0 1 (Some "t") _ _ _ _ eq_refl).
  - intros s' H. inversion H.
Qed.

End HarvestExamples.

(* ------------------------------------------------------------------ *)
(** ** The [xmltodict] record parsers *)

Module OAIParseFacts.
Import PyVal OAIParse.

Lemma append_assoc_str (a b c : string) : (a ++ b) ++ c = a ++ (b ++ c).
Proof. induction a as [| x a IH]; simpl; [reflexivity | rewrite IH; reflexivity]. Qed.

Lemma append_empty_r (a : string) : a ++ "" = a.
Proof. induction a as [| x a IH]; simpl; [reflexivity | rewrite IH; reflexivity]. Qed.

Lemma contains_char_app (ch : ascii) (a b : string) :
  contains_char ch (a ++ b) = contains_char ch a || contains_char ch b.
Proof. induction a as [| x a IH]; simpl; [reflexivity | rewrite IH, orb_assoc; reflexivity]. Qed.

Lemma split_on_no_sep (sep : ascii) (s : string) :
  contains_char sep s = false -> split_on sep s = [s].
Proof.
  induction s as [| c s IH]; simpl; [reflexivity |].
  intros H. apply orb_false_iff in H as [Hc Hs]. rewrite Hc, (IH Hs). reflexivity.
Qed.

Lemma split_on_two (sep : ascii) (s : string) :
  contains_char sep s = true -> exists x y ys, split_on sep s = x :: y :: ys.
Proof.
  induction s as [| c s IH]; simpl; [discriminate |].
  intros H. destruct (Ascii.eqb c sep) eqn:Hc.
  - destruct (contains_char sep s) eqn:Hs.
    + destruct (IH eq_refl) as (x & y & ys & ->). eauto.
    + rewrite (split_on_no_sep sep s Hs). eauto.
  - simpl in H. destruct (IH H) as (x & y & ys & ->). eauto.
Qed.

Lemma last_split_step (sep c : ascii) (s : string) :
  last_item (split_on sep (String c s)) =
  if contains_char sep s then last_item (split_on sep s)
  else if Ascii.eqb c sep then s else String c s.
Proof.
  unfold last_item. simpl. destruct (contains_char sep s) eqn:Hs.
  - destruct (split_on_two sep s Hs) as (x & y & ys & ->).
    destruct (Ascii.eqb c sep); reflexivity.
  - rewrite (split_on_no_sep sep s Hs). destruct (Ascii.eqb c sep); reflexivity.
Qed.

(** [s.split(sep)[-1]] is the suffix after the last separator. *)
Lemma split_on_last (sep : ascii) (s : string) :
  contains_char sep (last_item (split_on sep s)) = false /\
  exists p, s = p ++ last_item (split_on sep s) /\
    (p = "" \/ exists p', p = p' ++ String sep "").
Proof.
  induction s as [| c s IH].
  - split; [reflexivity |]. exists "". split; [reflexivity | left; reflexivity].
  - rewrite last_split_step. destruct IH as [Hno [p [Hs Hp]]].
    destruct (contains_char sep s) eqn:Hc.
    + split; [exact Hno |]. exists (String c p). split; [simpl; rewrite <- Hs; reflexivity |].
      right. destruct Hp as [-> | [p' ->]].
      * simpl in Hs. rewrite <- Hs in Hno. congruence.
      * exists (String c p'). reflexivity.
    + destruct (Ascii.eqb c sep) eqn:E.
      * apply Ascii.eqb_eq in E. subst c. split; [exact Hc |].
        exists (String sep ""). split; [reflexivity | right; exists ""; reflexivity].
      * split; [simpl; rewrite E, Hc; reflexivity |].
        exists "". split; [reflexivity | left; reflexivity].
Qed.

Lemma bind_ret {A B : Type} (m : pyres A) (f : A -> pyres B) (b : B) :
  bind m f = Ret b -> exists a, m = Ret a /\ f a = Ret b.
Proof. destruct m as [| a]; simpl; [discriminate | eauto]. Qed.

Lemma bind_raise {A B : Type} (m : pyres A) (f : A -> pyres B) :
  bind m f = Raise <-> m = Raise \/ exists a, m = Ret a /\ f a = Raise.
Proof.
  destruct m as [| a]; simpl; split.
  - auto.
  - auto.
  - intros H. right. eauto.
  - intros [H | (a' & H & H')]; [discriminate | injection H as <-; exact H'].
Qed.

Lemma map_res_raise {A B : Type} (f : A -> pyres B) (xs : list A) :
  map_res f xs = Raise <-> exists x, In x xs /\ f x = Raise.
Proof.
  induction xs as [| x xs IH]; simpl.
  - split; [discriminate | intros (? & [] & _)].
  - destruct (f x) as [| y] eqn:Ef; simpl.
    + split; [intros _; exists x; auto | reflexivity].
    + destruct (map_res f xs) as [| ys]; simpl.
      * split; [intros _ | reflexivity].
        destruct (proj1 IH eq_refl) as (x' & Hin & Hx'). eauto.
      * split; [discriminate |]. intros (x' & [<- | Hin] & Hx'); [congruence |].
        assert (Ret ys = Raise) by (apply IH; eauto). discriminate.
Qed.

Lemma map_res_length {A B : Type} (f : A -> pyres B) (xs : list A) (ys : list B) :
  map_res f xs = Ret ys -> List.length ys = List.length xs.
Proof.
  revert ys; induction xs as [| x xs IH]; simpl; intros ys H.
  - injection H as <-. reflexivity.
  - apply bind_ret in H as (y & _ & H). apply bind_ret in H as (ys' & Hys & H).
    injection H as <-. simpl. f_equal. apply IH, Hys.
Qed.

Lemma safe_get_path_app (d : pyval) (ks1 ks2 : list string) :
  safe_get_path d (ks1 ++ ks2)%list =
  match safe_get_path d ks1 with Some v => safe_get_path v ks2 | None => None end.
Proof.
  revert d; induction ks1 as [| k ks1 IH]; intros d; simpl; [reflexivity |].
  destruct d as [| | | kvs]; try reflexivity.
  destruct (dict_lookup kvs k); [apply IH | reflexivity].
Qed.

Lemma texts_truthy (str_of : pyval -> string) (v : pyval) :
  exists l, texts str_of v = PList l /\ forallb truthy l = true.
Proof.
  unfold texts. eexists; split; [reflexivity |].
  induction (ensure_list v) as [| x xs IH]; simpl; [reflexivity |].
  destruct (truthy (get_text str_of x)) eqn:E; simpl; [rewrite E; exact IH | exact IH].
Qed.

(** [_parse_enum] on a string returns its longest suffix holding neither
    ['/'] nor ['#']: what precedes it is empty or ends in one of them; the
    result is a fixed point of [_parse_enum]. *)
Theorem parse_enum_string_last_segment (str_of : pyval -> string) (s : string) :
  exists r, parse_enum str_of (PStr s) = Ret (PStr r) /\
    contains_char "/" r = false /\ contains_char "#" r = false /\
    (exists p, s = p ++ r /\
       (p = "" \/ exists p', p = p' ++ "/" \/ p = p' ++ "#")) /\
    parse_enum str_of (PStr r) = Ret (PStr r).
Proof.
  unfold parse_enum.
  destruct (contains_char "/" s || contains_char "#" s) eqn:Hs.
  - set (u := last_item (split_on "/" s)).
    set (r := last_item (split_on "#" u)).
    destruct (split_on_last "/" s) as [Hu [p1 [Hs1 Hp1]]]. fold u in Hu, Hs1.
    destruct (split_on_last "#" u) as [Hr [p2 [Hu2 Hp2]]]. fold r in Hr, Hu2.
    assert (Hr' : contains_char "/" r = false).
    { rewrite Hu2, contains_char_app in Hu. apply orb_false_iff in Hu as [_ H]. exact H. }
    exists r. split; [reflexivity |]. split; [exact Hr' |]. split; [exact Hr |].
    split.
    + exists (p1 ++ p2). split; [rewrite append_assoc_str, <- Hu2; exact Hs1 |].
      destruct Hp2 as [-> | [p2' ->]].
      * rewrite append_empty_r. destruct Hp1 as [-> | [p1' ->]]; [left; reflexivity |].
        right. exists p1'. left. reflexivity.
      * right. exists (p1 ++ p2'). right. rewrite append_assoc_str. reflexivity.
    + rewrite Hr', Hr. reflexivity.
  - exists s. split; [reflexivity |].
    apply orb_false_iff in Hs as [H1 H2]. split; [exact H1 |]. split; [exact H2 |].
    split; [exists ""; split; [reflexivity | left; reflexivity] |].
    rewrite H1, H2. reflexivity.
Qed.

(** [_parse_enum] raises only on a dict whose ["#text"] is truthy but no
    string, and returns [None] exactly on [None] and on a dict whose
    ["#text"] is missing or falsy. *)
Theorem parse_enum_raise_none (str_of : pyval -> string) (v : pyval) :
  (parse_enum str_of v = Raise <->
     exists kvs, v = PDict kvs /\ truthy (dict_get kvs "#text") = true /\
                 forall s, dict_get kvs "#text" <> PStr s) /\
  (parse_enum str_of v = Ret PNone <->
     v = PNone \/ exists kvs, v = PDict kvs /\ truthy (dict_get kvs "#text") = false).
Proof.
  destruct v as [| s | l | kvs]; simpl.
  - split; split.
    + discriminate.
    + intros (kvs & H & _). discriminate.
    + auto.
    + reflexivity.
  - destruct (contains_char "/" s || contains_char "#" s); split; split;
      try discriminate; try (intros (kvs & H & _); discriminate);
      intros [H | (kvs & H & _)]; discriminate.
  - split; split; try discriminate; try (intros (kvs & H & _); discriminate);
      intros [H | (kvs & H & _)]; discriminate.
  - destruct (truthy (dict_get kvs "#text")) eqn:Et.
    + destruct (dict_get kvs "#text") as [| t | l | kvs'] eqn:Eg;
        try (simpl in Et; discriminate).
      * split; split; try discriminate.
        -- intros (kvs0 & H & _ & Hn). injection H as <-. rewrite Eg in Hn.
           exfalso. exact (Hn t eq_refl).
        -- intros [H | (kvs0 & H & Hf)]; [discriminate |]. injection H as <-.
           rewrite Eg in Hf. rewrite Hf in Et. discriminate.
      * split; split.
        -- intros _. exists kvs. split; [reflexivity |]. rewrite Eg. split; [exact Et | discriminate].
        -- reflexivity.
        -- discriminate.
        -- intros [H | (kvs0 & H & Hf)]; [discriminate |]. injection H as <-.
           rewrite Eg in Hf. rewrite Hf in Et. discriminate.
      * split; split.
        -- intros _. exists kvs. split; [reflexivity |]. rewrite Eg. split; [exact Et | discriminate].
        -- reflexivity.
        -- discriminate.
        -- intros [H | (kvs0 & H & Hf)]; [discriminate |]. injection H as <-.
           rewrite Eg in Hf. rewrite Hf in Et. discriminate.
    + split; split.
      * discriminate.
      * intros (kvs0 & H & Ht & _). injection H as <-. rewrite Ht in Et. discriminate.
      * intros _. right. exists kvs. auto.
      * reflexivity.
Qed.

(** [_safe_get] along a concatenated path is [_safe_get] along the second
    part from where the first part ends, and the default when the first part
    already fails; the empty path returns the data itself. *)
Theorem safe_get_path_compose (d : pyval) (ks1 ks2 : list string) (default : pyval) :
  safe_get d (ks1 ++ ks2)%list default =
    match safe_get_path d ks1 with
    | Some v => safe_get v ks2 default
    | None => default
    end /\
  safe_get d [] default = d.
Proof.
  unfold safe_get. rewrite safe_get_path_app. split; [| reflexivity].
  destruct (safe_get_path d ks1); reflexivity.
Qed.

Definition person_of (item : pyval) : pyval := safe_get item ["cerif:Person"] PNone.

Definition field (d : pyval) (k : string) : pyval :=
  match d with PDict kvs => dict_get kvs k | _ => PNone end.

(** [_parse_contributors] raises exactly when some item has a truthy
    ["cerif:Person"] that is no dict; otherwise it returns one entry per item
    with a truthy person, in the items' order, whose ["person_id"] is that
    person's ["@id"]. *)
Theorem parse_contributors_spec (str_of : pyval -> string) (items : list pyval) :
  (parse_contributors str_of items = Raise <->
     exists it, In it items /\ truthy (person_of it) = true /\ is_dict (person_of it) = false) /\
  (forall out, parse_contributors str_of items = Ret out ->
     map (fun d => field d "person_id") out =
     map (fun it => safe_get (person_of it) ["@id"] PNone)
         (filter (fun it => truthy (person_of it)) items)).
Proof.
  induction items as [| it items [IHr IHo]]; simpl.
  - split; [split; [discriminate | intros (? & [] & _)] |].
    intros out H. injection H as <-. reflexivity.
  - unfold parse_contributor. fold (person_of it).
    destruct (truthy (person_of it)) eqn:Et; simpl.
    + destruct (person_of it) as [| ps | l | kvs] eqn:Ep; try (simpl in Et; discriminate).
      * simpl. split; [split; [intros _; exists it; rewrite Ep; auto | reflexivity] |].
        discriminate.
      * simpl. split; [split; [intros _; exists it; rewrite Ep; auto | reflexivity] |].
        discriminate.
      * simpl. destruct (parse_person_name str_of (dict_get kvs "cerif:PersonName")) as [fam fst].
        simpl. destruct (parse_contributors str_of items) as [| rest] eqn:Er; simpl.
        -- split; [split; [intros _ | reflexivity] |]; [| discriminate].
           destruct (proj1 IHr eq_refl) as (it' & Hin & H1 & H2). eauto.
        -- split.
           ++ split; [discriminate |]. intros (it' & [<- | Hin] & H1 & H2).
              ** rewrite Ep in H2. discriminate.
              ** assert (Ret rest = Raise) by (apply IHr; eauto). discriminate.
           ++ intros out H. injection H as <-. simpl. f_equal. apply IHo. reflexivity.
    + destruct (parse_contributors str_of items) as [| rest] eqn:Er; simpl.
      * split; [split; [intros _ | reflexivity] |]; [| discriminate].
        destruct (proj1 IHr eq_refl) as (it' & Hin & H1 & H2). eauto.
      * split.
        -- split; [discriminate |]. intros (it' & [<- | Hin] & H1 & H2).
           ++ rewrite Et in H1. discriminate.
           ++ assert (Ret rest = Raise) by (apply IHr; eauto). discriminate.
        -- intros out H. injection H as <-. apply IHo. reflexivity.
Qed.

(** [_parse_file_locations] returns [[]] on a falsy node; otherwise it
    raises exactly when some medium is no dict or has an ["ar:Access"] on
    which [_parse_enum] raises, and else returns one entry per medium. *)
Theorem parse_file_locations_spec (str_of : pyval -> string) (fl : pyval) :
  let mediums := ensure_list (safe_get fl ["cerif:Medium"] PNone) in
  (truthy fl = false -> parse_file_locations str_of fl = Ret []) /\
  (parse_file_locations str_of fl = Raise <->
     truthy fl = true /\
     exists m, In m mediums /\
       match m with
       | PDict kvs => parse_enum str_of (dict_get kvs "ar:Access") = Raise
       | _ => True
       end) /\
  (forall out, parse_file_locations str_of fl = Ret out ->
     List.length out = if truthy fl then List.length mediums else 0).
Proof.
  intros mediums. unfold parse_file_locations. fold mediums.
  destruct (truthy fl); simpl.
  - split; [discriminate |]. split.
    + rewrite map_res_raise. split.
      * intros (m & Hin & Hm). split; [reflexivity |]. exists m. split; [exact Hin |].
        destruct m as [| | | kvs]; try exact I. unfold parse_medium in Hm. simpl in Hm.
        destruct (parse_enum str_of (dict_get kvs "ar:Access")); [reflexivity | discriminate].
      * intros [_ (m & Hin & Hm)]. exists m. split; [exact Hin |].
        destruct m as [| | | kvs]; try reflexivity. unfold parse_medium. simpl.
        rewrite Hm. reflexivity.
    + intros out H. exact (map_res_length _ _ _ H).
  - split; [reflexivity |]. split.
    + split; [discriminate | intros [H _]; discriminate].
    + intros out H. injection H as <-. reflexivity.
Qed.

(** [_parse_references] returns [[]] on a falsy node; otherwise it raises
    exactly when some referenced publication is no dict or has a
    ["pubt:Type"] on which [_parse_enum] raises, and else returns one entry
    per publication, carrying its ["@id"]. *)
Theorem parse_references_spec (str_of : pyval -> string) (refs : pyval) :
  let pubs := ensure_list (safe_get refs ["cerif:Publication"] PNone) in
  (truthy refs = false -> parse_references str_of refs = Ret []) /\
  (parse_references str_of refs = Raise <->
     truthy refs = true /\
     exists p, In p pubs /\
       match p with
       | PDict kvs => parse_enum str_of (dict_get kvs "pubt:Type") = Raise
       | _ => True
       end) /\
  (forall out, parse_references str_of refs = Ret out ->
     map (fun d => field d "id") out =
     if truthy refs then map (fun p => safe_get p ["@id"] PNone) pubs else []).
Proof.
  intros pubs. unfold parse_references. fold pubs.
  destruct (truthy refs); simpl.
  - split; [discriminate |]. split.
    + rewrite map_res_raise. split.
      * intros (p & Hin & Hp). split; [reflexivity |]. exists p. split; [exact Hin |].
        destruct p as [| | | kvs]; try exact I. unfold parse_reference in Hp. simpl in Hp.
        destruct (parse_enum str_of (dict_get kvs "pubt:Type")); [reflexivity | discriminate].
      * intros [_ (p & Hin & Hp)]. exists p. split; [exact Hin |].
        destruct p as [| | | kvs]; try reflexivity. unfold parse_reference. simpl.
        rewrite Hp. reflexivity.
    + clearbody pubs. induction pubs as [| p ps IH]; simpl; intros out H.
      * injection H as <-. reflexivity.
      * apply bind_ret in H as (y & Hy & H). apply bind_ret in H as (ys & Hys & H).
        injection H as <-. simpl. rewrite (IH ys Hys). f_equal.
        unfold parse_reference in Hy. apply bind_ret in Hy as (ty & _ & Hy).
        apply bind_ret in Hy as (ty' & _ & Hy). injection Hy as <-. reflexivity.
  - split; [reflexivity |]. split.
    + split; [discriminate | intros [H _]; discriminate].
    + intros out H. injection H as <-. reflexivity.
Qed.

Lemma unwrap_wrapped (k1 k2 : string) (p : pyval) :
  k1 <> k2 -> truthy p = true ->
  safe_get_path p [k1] = None -> safe_get_path p [k2] = None ->
  unwrap k1 k2 (PDict [(k1, p)]) = unwrap k1 k2 p /\
  unwrap k1 k2 (PDict [(k2, p)]) = unwrap k1 k2 p.
Proof.
  intros Hk Ht H1 H2.
  assert (Hp : unwrap k1 k2 p = p).
  { destruct p as [| | | kvs]; try reflexivity. simpl in H1, H2.
    simpl. destruct (dict_lookup kvs k1); [discriminate |].
    destruct (dict_lookup kvs k2); [discriminate | reflexivity]. }
  rewrite Hp. unfold unwrap, py_or. simpl.
  rewrite String.eqb_refl, Ht. split; [reflexivity |].
  apply String.eqb_neq in Hk. rewrite Hk, String.eqb_refl, Ht. reflexivity.
Qed.

(** A person, organisational unit or publication wrapped in its own
    ["cerif:..."] or ["openaire_cris:..."] key parses like the bare value,
    when the bare value is truthy and carries neither wrapper key. *)
Theorem parsers_unwrap_wrapper (str_of : pyval -> string) (p : pyval) :
  truthy p = true ->
  (safe_get_path p ["cerif:Person"] = None -> safe_get_path p ["openaire_cris:person"] = None ->
   parse_person str_of (PDict [("cerif:Person", p)]) = parse_person str_of p /\
   parse_person str_of (PDict [("openaire_cris:person", p)]) = parse_person str_of p) /\
  (safe_get_path p ["cerif:OrgUnit"] = None -> safe_get_path p ["openaire_cris:orgunit"] = None ->
   parse_orgunit str_of (PDict [("cerif:OrgUnit", p)]) = parse_orgunit str_of p /\
   parse_orgunit str_of (PDict [("openaire_cris:orgunit", p)]) = parse_orgunit str_of p) /\
  (safe_get_path p ["cerif:Publication"] = None ->
   safe_get_path p ["openaire_cris:publication"] = None ->
   parse_publication str_of (PDict [("cerif:Publication", p)]) = parse_publication str_of p /\
   parse_publication str_of (PDict [("openaire_cris:publication", p)]) =
     parse_publication str_of p).
Proof.
  intros Ht. split; [| split]; intros H1 H2.
  - destruct (unwrap_wrapped "cerif:Person" "openaire_cris:person" p ltac:(discriminate) Ht H1 H2)
      as [E1 E2].
    unfold parse_person. rewrite E1, E2. split; reflexivity.
  - destruct (unwrap_wrapped "cerif:OrgUnit" "openaire_cris:orgunit" p ltac:(discriminate) Ht H1 H2)
      as [E1 E2].
    unfold parse_orgunit. rewrite E1, E2. split; reflexivity.
  - destruct (unwrap_wrapped "cerif:Publication" "openaire_cris:publication" p
                ltac:(discriminate) Ht H1 H2) as [E1 E2].
    unfold parse_publication. rewrite E1, E2. split; reflexivity.
Qed.

(** [_parse_person] and [_parse_orgunit] raise exactly when the value left
    after unwrapping is no dict; [_parse_publication] raises whenever it is
    no dict. *)
Theorem parsers_raise_on_non_dict (str_of : pyval -> string) (v : pyval) :
  (parse_person str_of v = Raise <-> is_dict (unwrap "cerif:Person" "openaire_cris:person" v) = false) /\
  (parse_orgunit str_of v = Raise <->
     is_dict (unwrap "cerif:OrgUnit" "openaire_cris:orgunit" v) = false) /\
  (is_dict (unwrap "cerif:Publication" "openaire_cris:publication" v) = false ->
   parse_publication str_of v = Raise).
Proof.
  unfold parse_person, parse_orgunit, parse_publication.
  split; [| split].
  - destruct (unwrap "cerif:Person" "openaire_cris:person" v); simpl;
      split; first [reflexivity | discriminate].
  - destruct (unwrap "cerif:OrgUnit" "openaire_cris:orgunit" v); simpl;
      split; first [reflexivity | discriminate].
  - destruct (unwrap "cerif:Publication" "openaire_cris:publication" v); simpl;
      first [reflexivity | discriminate].
Qed.

(** A parsed publication is a dict whose ["keywords"], ["isbn"] and
    ["issn"] are lists of truthy values only, and whose ["authors"] and
    ["editors"] are what [_parse_contributors] returns on the
    ["cerif:Authors"]/["cerif:Author"] and ["cerif:Editors"]/["cerif:Editor"]
    paths of the unwrapped record. *)
Theorem parse_publication_lists (str_of : pyval -> string) (v out : pyval) :
  parse_publication str_of v = Ret out ->
  let pub := unwrap "cerif:Publication" "openaire_cris:publication" v in
  exists kvs, out = PDict kvs /\
    (forall k, In k ["keywords"; "isbn"; "issn"] ->
       exists l, dict_lookup kvs k = Some (PList l) /\ forallb truthy l = true) /\
    (exists authors editors,
       parse_contributors str_of
         (ensure_list (safe_get pub ["cerif:Authors"; "cerif:Author"] PNone)) = Ret authors /\
       parse_contributors str_of
         (ensure_list (safe_get pub ["cerif:Editors"; "cerif:Editor"] PNone)) = Ret editors /\
       dict_lookup kvs "authors" = Some (PList authors) /\
       dict_lookup kvs "editors" = Some (PList editors)).
Proof.
  intros H. unfold parse_publication in H. cbv zeta in H |- *.
  repeat (apply bind_ret in H; destruct H as (? & ? & H)).
  injection H as <-. eexists; split; [reflexivity |]. split.
  - intros k Hk. simpl in Hk.
    destruct Hk as [<- | [<- | [<- | []]]]; simpl.
    + destruct (texts_truthy str_of x15) as (l & -> & Hl). eauto.
    + destruct (texts_truthy str_of x16) as (l & -> & Hl). eauto.
    + destruct (texts_truthy str_of x17) as (l & -> & Hl). eauto.
  - do 2 eexists. split; [eassumption |]. split; [eassumption |]. split; reflexivity.
Qed.

End OAIParseFacts.

Module OAIParseExamples.
Import PyVal OAIParse OAIParseFacts.

Definition no_repr (v : pyval) : string := "".

Definition bare_record : pyval :=
  PDict [("@id", PStr "42"); ("cerif:Name", PStr "EEMCS");
         ("cerif:PersonName", PDict [("cerif:FamilyNames", PStr "Doe")])].

Lemma parsers_unwrap_wrapper_witness :
  truthy bare_record = true /\
  parse_person no_repr (PDict [("cerif:Person", bare_record)]) = parse_person no_repr bare_record /\
  parse_orgunit no_repr (PDict [("openaire_cris:orgunit", bare_record)]) =
    parse_orgunit no_repr bare_record.
Proof.
  split; [reflexivity |].
  destruct (parsers_unwrap_wrapper no_repr bare_record eq_refl) as [Hp [Ho _]].
  split; [exact (proj1 (Hp eq_refl eq_refl)) | exact (proj2 (Ho eq_refl eq_refl))].
Defined.

Definition sample_publication : pyval :=
  PDict [("cerif:Publication",
          PDict [("@id", PStr "7"); ("pubt:Type", PStr "http://x/types#article");
                 ("cerif:Keyword", PList [PStr "oai"; PStr ""; PDict [("#text", PStr "xml")]]);
                 ("cerif:Authors", PDict [("cerif:Author",
                    PDict [("cerif:Person", PDict [("@id", PStr "p1")])])])])].

Lemma parse_publication_lists_witness :
  exists out, parse_publication no_repr sample_publication = Ret out /\
  let pub := unwrap "cerif:Publication" "openaire_cris:publication" sample_publication in
  exists kvs, out = PDict kvs /\
    (forall k, In k ["keywords"; "isbn"; "issn"] ->
       exists l, dict_lookup kvs k = Some (PList l) /\ forallb truthy l = true) /\
    (exists authors editors,
       parse_contributors no_repr
         (ensure_list (safe_get pub ["cerif:Authors"; "cerif:Author"] PNone)) = Ret authors /\
       parse_contributors no_repr
         (ensure_list (safe_get pub ["cerif:Editors"; "cerif:Editor"] PNone)) = Ret editors /\
       dict_lookup kvs "authors" = Some (PList authors) /\
       dict_lookup kvs "editors" = Some (PList editors)).
Proof.
  eexists. split; [vm_compute; reflexivity |].
  apply (parse_publication_lists no_repr sample_publication). vm_compute. reflexivity.
Defined.

End OAIParseExamples.


Module DateChunksFacts.
Import PyVal DateChunks.
Local Open Scope Z_scope.

(** The [i]-th chunk of a run from ordinal [s] to ordinal [e]. *)
Definition chunk_at (s e n : Z) (i : nat) : Z * Z :=
  let a := s + Z.of_nat i * (n + 1) in (a, Z.min (a + n) e).

(** [ceil((e - s) / (n + 1))]: how many chunks start before [e]. *)
Definition chunk_count (s e n : Z) : nat := Z.to_nat ((e - s + n) / (n + 1)).

Lemma days_before_year_mono (y1 y2 : Z) :
  y1 <= y2 -> days_before_year y1 + 364 * (y2 - y1) <= days_before_year y2.
Proof.
  intros H. unfold days_before_year.
  pose proof (Z.div_mod (y1 - 1) 4 ltac:(lia)). pose proof (Z.mod_pos_bound (y1 - 1) 4 ltac:(lia)).
  pose proof (Z.div_mod (y2 - 1) 4 ltac:(lia)). pose proof (Z.mod_pos_bound (y2 - 1) 4 ltac:(lia)).
  pose proof (Z.div_mod (y1 - 1) 100 ltac:(lia)). pose proof (Z.mod_pos_bound (y1 - 1) 100 ltac:(lia)).
  pose proof (Z.div_mod (y2 - 1) 100 ltac:(lia)). pose proof (Z.mod_pos_bound (y2 - 1) 100 ltac:(lia)).
  pose proof (Z.div_mod (y1 - 1) 400 ltac:(lia)). pose proof (Z.mod_pos_bound (y1 - 1) 400 ltac:(lia)).
  pose proof (Z.div_mod (y2 - 1) 400 ltac:(lia)). pose proof (Z.mod_pos_bound (y2 - 1) 400 ltac:(lia)).
  lia.
Qed.

Lemma datetime_jan1 (y : Z) : 1 <= y <= 9999 -> datetime y 1 1 = Ret (ymd2ord y 1 1).
Proof.
  intros H. unfold datetime, MINYEAR, MAXYEAR.
  replace ((1 <=? y) && (y <=? 9999)) with true by (symmetry; apply andb_true_iff; lia).
  reflexivity.
Qed.

Lemma datetime_dec31 (y : Z) : 1 <= y <= 9999 -> datetime y 12 31 = Ret (ymd2ord y 12 31).
Proof.
  intros H. unfold datetime, MINYEAR, MAXYEAR.
  replace ((1 <=? y) && (y <=? 9999)) with true by (symmetry; apply andb_true_iff; lia).
  reflexivity.
Qed.

Lemma ymd2ord_jan1 (y : Z) : ymd2ord y 1 1 = days_before_year y + 1.
Proof. unfold ymd2ord, days_before_month. simpl. lia. Qed.

Lemma ymd2ord_dec31 (y : Z) :
  ymd2ord y 12 31 = days_before_year y + 365 + (if is_leap y then 1 else 0).
Proof. unfold ymd2ord, days_before_month. simpl. destruct (is_leap y); lia. Qed.

Lemma ymd2ord_jan1_lower (y : Z) : 1 <= y -> 1 + 364 * (y - 1) <= ymd2ord y 1 1.
Proof.
  intros H. rewrite ymd2ord_jan1. pose proof (days_before_year_mono 1 y H) as Hm.
  change (days_before_year 1) with 0 in Hm. lia.
Qed.

(** From 1 January of [sy] to 31 December of a year [ey >= sy] there are at
    least 364 days. *)
Lemma year_span (sy ey : Z) : sy <= ey -> ymd2ord sy 1 1 + 364 <= ymd2ord ey 12 31.
Proof.
  intros H. rewrite ymd2ord_jan1, ymd2ord_dec31.
  pose proof (days_before_year_mono sy ey H). destruct (is_leap ey); lia.
Qed.

Lemma loop_exit (fuel : nat) (n e cur : Z) :
  (0 < fuel)%nat -> e <= cur -> chunk_loop fuel n e cur = Some (Ret []).
Proof.
  intros Hf Hc. destruct fuel as [| fuel]; [lia |]. simpl.
  replace (cur <? e) with false by (symmetry; apply Z.ltb_ge; lia). reflexivity.
Qed.

Lemma map_chunk_at_succ (s e n : Z) (k : nat) :
  map (chunk_at s e n) (seq 0 (S k)) =
  chunk_at s e n 0 :: map (chunk_at (s + n + 1) e n) (seq 0 k).
Proof.
  simpl. f_equal. rewrite <- seq_shift, map_map. apply map_ext. intros i.
  unfold chunk_at. rewrite Nat2Z.inj_succ.
  replace (s + Z.succ (Z.of_nat i) * (n + 1)) with (s + n + 1 + Z.of_nat i * (n + 1)) by lia.
  reflexivity.
Qed.

Lemma loop_tiles (n e : Z) :
  0 <= n -> e + n <= MAXORDINAL ->
  forall k fuel cur, 1 <= cur -> chunk_count cur e n = k -> (k < fuel)%nat ->
  chunk_loop fuel n e cur = Some (Ret (map (chunk_at cur e n) (seq 0 k))).
Proof.
  intros Hn Hmax k. induction k as [| k IH]; intros fuel cur Hcur Hk Hf.
  - apply loop_exit; [lia |]. unfold chunk_count in Hk.
    destruct (Z.le_gt_cases e cur) as [Hle | Hlt]; [exact Hle |].
    assert (1 <= (e - cur + n) / (n + 1)) by (apply Z.div_le_lower_bound; lia). lia.
  - unfold chunk_count in Hk.
    assert (Hlt : cur < e).
    { destruct (Z.le_gt_cases e cur) as [Hle | Hlt]; [| exact Hlt].
      assert ((e - cur + n) / (n + 1) < 1) by (apply Z.div_lt_upper_bound; lia). lia. }
    destruct fuel as [| fuel]; [lia |].
    rewrite map_chunk_at_succ. unfold chunk_at at 1.
    remember (map (chunk_at (cur + n + 1) e n) (seq 0 k)) as tl eqn:Etl.
    simpl. replace (cur + 0) with cur by lia.
    replace (cur <? e) with true by (symmetry; apply Z.ltb_lt; lia).
    unfold timedelta_days.
    replace ((-999999999 <=? n) && (n <=? 999999999)) with true
      by (symmetry; apply andb_true_iff; unfold MAXORDINAL in Hmax; lia).
    simpl. unfold add_days.
    replace ((1 <=? cur + n) && (cur + n <=? MAXORDINAL)) with true
      by (symmetry; apply andb_true_iff; lia).
    destruct (Z.gtb_spec (cur + n) e) as [Hgt | Hle].
    + replace (Z.min (cur + n) e) with e by lia.
      replace ((1 <=? e + 1) && (e + 1 <=? MAXORDINAL)) with true
        by (symmetry; apply andb_true_iff; lia).
      assert (Hk1 : (e - cur + n) / (n + 1) = 1).
      { symmetry. apply (Z.div_unique _ _ _ (e - cur - 1)); lia. }
      rewrite Hk1 in Hk. simpl in Hk. injection Hk as <-. subst tl. simpl.
      rewrite loop_exit by lia. reflexivity.
    + replace (Z.min (cur + n) e) with (cur + n) by lia.
      replace ((1 <=? cur + n + 1) && (cur + n + 1 <=? MAXORDINAL)) with true
        by (symmetry; apply andb_true_iff; lia).
      rewrite (IH fuel (cur + n + 1)); [subst tl; reflexivity | lia | | lia].
      unfold chunk_count.
      replace (e - (cur + n + 1) + n) with ((e - cur + n) + (-1) * (n + 1)) by lia.
      rewrite Z_div_plus_full by lia. lia.
Qed.

Lemma chunk_count_pos (s e n : Z) : 0 <= n -> s < e -> (0 < chunk_count s e n)%nat.
Proof.
  intros Hn H. unfold chunk_count.
  assert (1 <= (e - s + n) / (n + 1)) by (apply Z.div_le_lower_bound; lia). lia.
Qed.

Lemma last_chunk_end (s e n : Z) :
  0 <= n -> s < e ->
  snd (last (map (chunk_at s e n) (seq 0 (chunk_count s e n))) (0, 0)) =
  if (e - s) mod (n + 1) =? 0 then e - 1 else e.
Proof.
  intros Hn Hse. pose proof (chunk_count_pos s e n Hn Hse) as Hpos.
  destruct (chunk_count s e n) as [| k] eqn:Hk; [lia |].
  rewrite seq_S, map_app. cbn [map]. rewrite last_last. simpl Nat.add. unfold chunk_at, snd.
  unfold chunk_count in Hk.
  pose proof (Z.div_mod (e - s) (n + 1) ltac:(lia)) as Hdm.
  pose proof (Z.mod_pos_bound (e - s) (n + 1) ltac:(lia)) as Hb.
  set (q := (e - s) / (n + 1)) in *. set (r := (e - s) mod (n + 1)) in *.
  destruct (Z.eqb_spec r 0) as [Hr | Hr].
  - assert (Hq : (e - s + n) / (n + 1) = q).
    { symmetry. apply (Z.div_unique _ _ _ n); lia. }
    rewrite Hq in Hk. assert (Z.of_nat k = q - 1) by lia.
    rewrite H. nia.
  - assert (Hq : (e - s + n) / (n + 1) = q + 1).
    { symmetry. apply (Z.div_unique _ _ _ (r - 1)); lia. }
    rewrite Hq in Hk. assert (Z.of_nat k = q) by lia.
    rewrite H. nia.
Qed.

(** For [1 <= start_year <= end_year] and a chunk size [n >= 0] small enough
    that no [current + timedelta(days=n)] leaves the calendar,
    [generate_date_chunks] returns [ceil((E - S) / (n + 1))] chunks, where
    [S] is 1 January of [start_year] and [E] 31 December of [end_year]: the
    [i]-th runs from [S + i (n + 1)] to [min(S + i (n + 1) + n, E)], so each
    starts the day after the previous one ends; the last one ends on [E]
    unless [n + 1] divides [E - S], and then on the day before. *)
Theorem generate_date_chunks_tiling (strftime : Z -> string) (fuel : nat)
    (start_year end_year n : Z) :
  1 <= start_year <= end_year -> end_year <= 9999 -> 0 <= n ->
  ymd2ord end_year 12 31 + n <= MAXORDINAL ->
  let S := ymd2ord start_year 1 1 in
  let E := ymd2ord end_year 12 31 in
  (chunk_count S E n < fuel)%nat ->
  exists cs,
    generate_date_chunks strftime fuel start_year end_year n = Some (Ret (map (fmt_pair strftime) cs)) /\
    cs = map (chunk_at S E n) (seq 0 (chunk_count S E n)) /\
    (0 < List.length cs)%nat /\
    fst (hd (0, 0) cs) = S /\
    snd (last cs (0, 0)) = if (E - S) mod (n + 1) =? 0 then E - 1 else E.
Proof.
  intros Hy Hey Hn Hmax S E Hf.
  pose proof (year_span start_year end_year ltac:(lia)) as Hspan. fold S E in Hspan.
  assert (HS : 1 <= S).
  { pose proof (ymd2ord_jan1_lower start_year ltac:(lia)). lia. }
  exists (map (chunk_at S E n) (seq 0 (chunk_count S E n))).
  split; [| split; [reflexivity | split; [| split]]].
  - unfold generate_date_chunks. rewrite datetime_jan1, datetime_dec31 by lia. fold S E.
    rewrite (loop_tiles n E Hn Hmax (chunk_count S E n) fuel S HS eq_refl Hf). reflexivity.
  - rewrite length_map, length_seq. apply chunk_count_pos; lia.
  - pose proof (chunk_count_pos S E n Hn ltac:(lia)).
    destruct (chunk_count S E n); [lia |]. simpl. lia.
  - apply last_chunk_end; lia.
Qed.

Lemma loop_minus_one (e : Z) :
  e <= MAXORDINAL -> forall fuel cur, 2 <= cur < e -> chunk_loop fuel (-1) e cur = None.
Proof.
  intros He fuel. induction fuel as [| fuel IH]; intros cur Hc; [reflexivity |].
  simpl. replace (cur <? e) with true by (symmetry; apply Z.ltb_lt; lia).
  unfold add_days.
  replace ((1 <=? cur + -1) && (cur + -1 <=? MAXORDINAL)) with true
    by (symmetry; apply andb_true_iff; lia).
  replace (cur + -1 >? e) with false by (symmetry; rewrite Z.gtb_ltb; apply Z.ltb_ge; lia).
  replace ((1 <=? cur + -1 + 1) && (cur + -1 + 1 <=? MAXORDINAL)) with true
    by (symmetry; apply andb_true_iff; lia).
  replace (cur + -1 + 1) with cur by lia. rewrite IH by lia. reflexivity.
Qed.

Lemma loop_negative (n e : Z) :
  n <= -2 -> forall fuel cur, 1 <= cur < e -> (Z.to_nat cur < fuel)%nat ->
  chunk_loop fuel n e cur = Some Raise.
Proof.
  intros Hn fuel. induction fuel as [| fuel IH]; intros cur Hc Hf; [lia |].
  simpl. replace (cur <? e) with true by (symmetry; apply Z.ltb_lt; lia).
  unfold timedelta_days. destruct ((-999999999 <=? n) && (n <=? 999999999)); [| reflexivity].
  simpl. unfold add_days. destruct ((1 <=? cur + n) && (cur + n <=? MAXORDINAL)) eqn:E1;
    [| reflexivity].
  apply andb_true_iff in E1 as [E1 _]. apply Z.leb_le in E1.
  replace (cur + n >? e) with false by (symmetry; rewrite Z.gtb_ltb; apply Z.ltb_ge; lia).
  simpl. destruct ((1 <=? cur + n + 1) && (cur + n + 1 <=? MAXORDINAL)); [| reflexivity].
  rewrite IH by lia. reflexivity.
Qed.

(** A negative chunk size never yields a chunk list: with [-1] the loop
    never ends (for [start_year >= 2]), and with [-2] or less it walks back
    until the date arithmetic raises [OverflowError]. *)
Theorem generate_date_chunks_negative (strftime : Z -> string) (start_year end_year : Z) :
  1 <= start_year <= end_year -> end_year <= 9999 ->
  (2 <= start_year -> forall fuel, generate_date_chunks strftime fuel start_year end_year (-1) = None) /\
  (forall n fuel, n <= -2 -> (Z.to_nat (ymd2ord start_year 1 1) < fuel)%nat ->
     generate_date_chunks strftime fuel start_year end_year n = Some Raise).
Proof.
  intros Hy Hey.
  pose proof (year_span start_year end_year ltac:(lia)) as Hspan.
  assert (HS : 1 <= ymd2ord start_year 1 1).
  { pose proof (ymd2ord_jan1_lower start_year ltac:(lia)). lia. }
  split.
  - intros H2 fuel. unfold generate_date_chunks. rewrite datetime_jan1, datetime_dec31 by lia.
    assert (HS2 : 366 <= ymd2ord start_year 1 1).
    { rewrite ymd2ord_jan1. pose proof (days_before_year_mono 2 start_year H2) as Hm.
      change (days_before_year 2) with 365 in Hm. lia. }
    assert (HE : ymd2ord end_year 12 31 <= MAXORDINAL).
    { rewrite ymd2ord_dec31. pose proof (days_before_year_mono end_year 9999 Hey).
      change (days_before_year 9999) with 3651694 in H. unfold MAXORDINAL.
      destruct (Z.eq_dec end_year 9999) as [-> | Hne].
      - reflexivity.
      - destruct (is_leap end_year); lia. }
    rewrite loop_minus_one by lia. reflexivity.
  - intros n fuel Hn Hf. unfold generate_date_chunks. rewrite datetime_jan1, datetime_dec31 by lia.
    rewrite loop_negative by lia. reflexivity.
Qed.

Lemma loop_year_9999 (n : Z) :
  0 <= n ->
  forall k fuel cur, 1 <= cur < MAXORDINAL -> (MAXORDINAL - cur) mod (n + 1) <> 0 ->
  chunk_count cur MAXORDINAL n = k -> (k < fuel)%nat ->
  chunk_loop fuel n MAXORDINAL cur = Some Raise.
Proof.
  intros Hn k. induction k as [| k IH]; intros fuel cur Hc Hmod Hk Hf.
  - pose proof (chunk_count_pos cur MAXORDINAL n Hn ltac:(lia)). lia.
  - destruct fuel as [| fuel]; [lia |]. simpl.
    replace (cur <? MAXORDINAL) with true by (symmetry; apply Z.ltb_lt; lia).
    unfold timedelta_days. destruct ((-999999999 <=? n) && (n <=? 999999999)); [| reflexivity].
    simpl. unfold add_days.
    destruct ((1 <=? cur + n) && (cur + n <=? MAXORDINAL)) eqn:E1; [| reflexivity].
    apply andb_true_iff in E1 as [_ E1]. apply Z.leb_le in E1.
    replace (cur + n >? MAXORDINAL) with false by (symmetry; rewrite Z.gtb_ltb; apply Z.ltb_ge; lia).
    simpl. destruct (Z.eq_dec (cur + n) MAXORDINAL) as [Heq | Hne].
    + rewrite Heq. replace ((1 <=? MAXORDINAL + 1) && (MAXORDINAL + 1 <=? MAXORDINAL)) with false
        by reflexivity. reflexivity.
    + replace ((1 <=? cur + n + 1) && (cur + n + 1 <=? MAXORDINAL)) with true
        by (symmetry; apply andb_true_iff; lia).
      assert (Hne' : cur + n + 1 <> MAXORDINAL).
      { intros Heq. apply Hmod. replace (MAXORDINAL - cur) with (0 + 1 * (n + 1)) by lia.
        rewrite Z_mod_plus_full. reflexivity. }
      assert (Hmod' : (MAXORDINAL - (cur + n + 1)) mod (n + 1) <> 0).
      { replace (MAXORDINAL - cur) with ((MAXORDINAL - (cur + n + 1)) + 1 * (n + 1)) in Hmod by lia.
        rewrite Z_mod_plus_full in Hmod. exact Hmod. }
      rewrite (IH fuel (cur + n + 1)); [reflexivity | lia | exact Hmod' | | lia].
      unfold chunk_count in *.
      replace (MAXORDINAL - (cur + n + 1) + n) with ((MAXORDINAL - cur + n) + (-1) * (n + 1)) by lia.
      rewrite Z_div_plus_full by lia. lia.
Qed.

(** With [end_year = 9999], whenever the chunks would reach 9999-12-31
    (that is, [n + 1] does not divide the span), [generate_date_chunks]
    raises [OverflowError]: after the last chunk it steps one day past the
    largest date. *)
Theorem generate_date_chunks_year_9999 (strftime : Z -> string) (fuel : nat)
    (start_year n : Z) :
  1 <= start_year <= 9999 -> 0 <= n ->
  (ymd2ord 9999 12 31 - ymd2ord start_year 1 1) mod (n + 1) <> 0 ->
  (chunk_count (ymd2ord start_year 1 1) (ymd2ord 9999 12 31) n < fuel)%nat ->
  generate_date_chunks strftime fuel start_year 9999 n = Some Raise.
Proof.
  intros Hy Hn Hmod Hf.
  pose proof (year_span start_year 9999 ltac:(lia)) as Hspan.
  assert (HS : 1 <= ymd2ord start_year 1 1).
  { pose proof (ymd2ord_jan1_lower start_year ltac:(lia)). lia. }
  unfold generate_date_chunks. rewrite datetime_jan1, datetime_dec31 by lia.
  change (ymd2ord 9999 12 31) with MAXORDINAL in *.
  rewrite (loop_year_9999 n Hn _ fuel (ymd2ord start_year 1 1) ltac:(lia) Hmod eq_refl Hf).
  reflexivity.
Qed.

End DateChunksFacts.

Module DateChunksExamples.
Import PyVal DateChunks DateChunksFacts.
Local Open Scope Z_scope.

Definition no_fmt (d : Z) : string := "".

(** The call [generate_date_chunks(2015, 2025)] of [get_all_records]: 130
    chunks of 31 days, the last one ending on 2025-12-31. *)
Lemma generate_date_chunks_tiling_witness :
  let S := ymd2ord 2015 1 1 in
  let E := ymd2ord 2025 12 31 in
  exists cs,
    generate_date_chunks no_fmt 200 2015 2025 30 = Some (Ret (map (fmt_pair no_fmt) cs)) /\
    cs = map (chunk_at S E 30) (seq 0 (chunk_count S E 30)) /\
    (0 < List.length cs)%nat /\
    fst (hd (0, 0) cs) = S /\
    snd (last cs (0, 0)) = if (E - S) mod (30 + 1) =? 0 then E - 1 else E.
Proof.
  apply (generate_date_chunks_tiling no_fmt 200 2015 2025 30); try lia.
  - apply Z.leb_le. vm_compute. reflexivity.
  - apply Nat.ltb_lt. vm_compute. reflexivity.
Defined.

Lemma generate_date_chunks_negative_witness :
  generate_date_chunks no_fmt 50 2015 2025 (-1) = None /\
  generate_date_chunks no_fmt 400 2 3 (-2) = Some Raise.
Proof.
  split.
  - apply (proj1 (generate_date_chunks_negative no_fmt 2015 2025 ltac:(lia) ltac:(lia))). lia.
  - apply (proj2 (generate_date_chunks_negative no_fmt 2 3 ltac:(lia) ltac:(lia))); [lia |].
    apply Nat.ltb_lt. vm_compute. reflexivity.
Defined.

Lemma generate_date_chunks_year_9999_witness :
  generate_date_chunks no_fmt 200 9990 9999 30 = Some Raise.
Proof.
  apply (generate_date_chunks_year_9999 no_fmt 200 9990 30); try lia.
  - vm_compute. discriminate.
  - apply Nat.ltb_lt. vm_compute. reflexivity.
Defined.

End DateChunksExamples.


Module CleanPubsFacts.
Import Frame CleanPubs.

Definition is_digit (c : ascii) : bool :=
  Nat.leb 48 (nat_of_ascii c) && Nat.leb (nat_of_ascii c) 57.

Lemma digit_not_dash (c : ascii) : is_digit c = true -> Ascii.eqb "-" c = false.
Proof.
  intros H. destruct (Ascii.eqb_spec "-" c) as [<- | _]; [discriminate | reflexivity].
Qed.

(** The fix-up of [publication_date] is meant for the malformed values
    ["2-01-23"] and ["3-03-15"], but the patterns are not anchored: every
    well-formed date on 23 January of a year ending in 2, or on 15 March of
    a year ending in 3, is rewritten into a longer, malformed string. *)
Theorem fix_publication_date_rewrites_valid_dates (a b c : ascii) :
  is_digit b = true -> is_digit c = true ->
  fix_publication_date (Some (String a (String b (String c "2-01-23")))) =
    Some (String a (String b (String c "2023-01-02"))) /\
  fix_publication_date (Some (String a (String b (String c "3-03-15")))) =
    Some (String a (String b (String c "2015-03-03"))).
Proof.
  intros Hb Hc. pose proof (digit_not_dash b Hb) as Hb'. pose proof (digit_not_dash c Hc) as Hc'.
  unfold fix_publication_date. simpl option_map.
  split; f_equal; cbn; rewrite ?Hb', ?Hc', ?andb_false_r; cbn;
    rewrite ?Hb', ?Hc', ?andb_false_r; reflexivity.
Qed.

Lemma to_lowercase_app (a b : string) :
  Str.to_lowercase (a ++ b) = Str.to_lowercase a ++ Str.to_lowercase b.
Proof. induction a as [| x a IH]; simpl; [reflexivity | rewrite IH; reflexivity]. Qed.

Lemma matches_at_self (pat rest : string) : Str.matches_at pat (pat ++ rest) = true.
Proof.
  induction pat as [| p pat IH]; [destruct rest; reflexivity |]. simpl. rewrite IH.
  unfold Str.regex_char_matches. destruct (Ascii.eqb p ".") eqn:E.
  - apply Ascii.eqb_eq in E. subst p. reflexivity.
  - rewrite Ascii.eqb_refl. reflexivity.
Qed.

Lemma substring_all (m : nat) (s : string) :
  (String.length s <= m)%nat -> substring 0 m s = s.
Proof.
  revert m; induction s as [| c s IH]; intros m H; destruct m as [| m]; simpl in *;
    try reflexivity; try lia.
  rewrite IH by lia. reflexivity.
Qed.

Lemma substring_after (a b : string) (m : nat) :
  (String.length b <= m)%nat -> substring (String.length a) m (a ++ b) = b.
Proof.
  intros H. induction a as [| c a IH]; simpl; [apply substring_all, H | exact IH].
Qed.

Lemma string_length_app (a b : string) :
  String.length (a ++ b) = (String.length a + String.length b)%nat.
Proof. induction a as [| c a IH]; simpl; [reflexivity | rewrite IH; reflexivity]. Qed.

Lemma replace_first_prefix (pat rest : string) :
  Str.replace_first pat (pat ++ rest) = rest.
Proof.
  destruct pat as [| p pat'].
  - destruct rest; simpl; [reflexivity |]. f_equal. apply substring_all. lia.
  - assert (Hu : forall s, Str.replace_first (String p pat') s =
              if Str.matches_at (String p pat') s
              then substring (String.length (String p pat')) (String.length s) s
              else match s with
                   | EmptyString => EmptyString
                   | String c s' => String c (Str.replace_first (String p pat') s')
                   end) by (intros [| c s']; reflexivity).
    rewrite Hu, matches_at_self. apply substring_after. rewrite string_length_app. lia.
Qed.

(** [clean_publications] lowercases a DOI before removing the
    ["https://doi.org/"] prefix, so the prefix goes in any letter case. *)
Theorem clean_doi_value_strips_any_case_prefix (p rest : string) :
  Str.to_lowercase p = Cleaning.doi_prefix ->
  clean_doi_value (Some (p ++ rest)) =
    Some (Str.strip Str.rust_is_whitespace (Str.to_lowercase rest)).
Proof.
  intros Hp. unfold clean_doi_value. simpl. rewrite to_lowercase_app, Hp.
  rewrite replace_first_prefix. reflexivity.
Qed.

Lemma lookup_dict_set (d : list (string * string)) (k v x : string) :
  dict_lookup (dict_set d k v) x = if String.eqb x k then Some v else dict_lookup d x.
Proof.
  induction d as [| [k' v'] d IH]; simpl.
  - reflexivity.
  - destruct (String.eqb_spec k k') as [-> | Hne]; simpl.
    + destruct (String.eqb x k'); reflexivity.
    + rewrite IH. destruct (String.eqb_spec x k) as [Hxk | Hxk].
      * subst x. apply String.eqb_neq in Hne. rewrite Hne. reflexivity.
      * destruct (String.eqb x k'); reflexivity.
Qed.

Lemma lookup_variants (vs : list string) (c : string) (fl : list (string * string)) (x : string) :
  dict_lookup (fold_left (fun fl variant => dict_set fl variant c) vs fl) x =
  if existsb (String.eqb x) vs then Some c else dict_lookup fl x.
Proof.
  revert fl; induction vs as [| v vs IH]; intros fl; simpl; [reflexivity |].
  rewrite IH, lookup_dict_set. destruct (String.eqb x v), (existsb (String.eqb x) vs); reflexivity.
Qed.

Lemma keys_dict_set (d : list (string * string)) (k v : string) :
  NoDup (map fst d) -> NoDup (map fst (dict_set d k v)) /\
  (forall x, In x (map fst (dict_set d k v)) <-> x = k \/ In x (map fst d)).
Proof.
  induction d as [| [k' v'] d IH]; simpl; intros Hnd.
  - split; [constructor; [intros [] | constructor] |]. intros x; split; [intros [<- | []]; auto |].
    intros [<- | []]; auto.
  - inversion Hnd as [| ? ? Hnin Hnd']; subst.
    destruct (String.eqb_spec k k') as [-> | Hne]; simpl.
    + split; [constructor; assumption |]. intros x.
      split; [intros [H | H]; [left; symmetry; exact H | right; right; exact H] |].
      intros [H | [H | H]]; [left; symmetry; exact H | left; exact H | right; exact H].
    + destruct (IH Hnd') as [Hnd2 Hin2]. split.
      * constructor; [| exact Hnd2]. rewrite Hin2. intros [-> | H]; [congruence | contradiction].
      * intros x. rewrite Hin2.
        split; [intros [H | [H | H]] | intros [H | [H | H]]]; auto.
Qed.

Lemma keys_variants (vs : list string) (c : string) (fl : list (string * string)) :
  NoDup (map fst fl) ->
  NoDup (map fst (fold_left (fun fl variant => dict_set fl variant c) vs fl)).
Proof.
  revert fl; induction vs as [| v vs IH]; intros fl H; simpl; [exact H |].
  apply IH, keys_dict_set, H.
Qed.

(** [load_publisher_mapping] maps a variant to the canonical name of the
    last JSON entry that lists it (a later canonical overrides an earlier
    one), has no entry for a variant no canonical lists, and keeps one key
    per variant; a missing file gives the empty mapping. *)
Theorem load_publisher_mapping_last_wins (data : list (string * list string)) :
  (forall variant,
     dict_lookup (load_publisher_mapping (Some data)) variant =
     match rev (filter (fun '(_, vs) => existsb (String.eqb variant) vs) data) with
     | [] => None
     | (canonical, _) :: _ => Some canonical
     end) /\
  NoDup (map fst (load_publisher_mapping (Some data))) /\
  load_publisher_mapping None = [].
Proof.
  split; [| split; [| reflexivity]]; unfold load_publisher_mapping.
  - intros x. assert (Hgen : forall acc,
      dict_lookup (fold_left (fun flipped '(canonical, variants) =>
          fold_left (fun fl variant => dict_set fl variant canonical) variants flipped) data acc) x =
      match rev (filter (fun '(_, vs) => existsb (String.eqb x) vs) data) with
      | [] => dict_lookup acc x
      | (canonical, _) :: _ => Some canonical
      end).
    { induction data as [| [c vs] data IH]; intros acc; simpl; [reflexivity |].
      rewrite IH. destruct (rev (filter (fun '(_, vs0) => existsb (String.eqb x) vs0) data))
        as [| [c' vs'] r] eqn:Er.
      - rewrite lookup_variants. destruct (existsb (String.eqb x) vs); simpl; rewrite Er; reflexivity.
      - destruct (existsb (String.eqb x) vs); simpl; rewrite Er; reflexivity. }
    rewrite Hgen. destruct (rev _) as [| [c vs] r]; reflexivity.
  - assert (Hgen : forall acc, NoDup (map fst acc) ->
      NoDup (map fst (fold_left (fun flipped '(canonical, variants) =>
          fold_left (fun fl variant => dict_set fl variant canonical) variants flipped) data acc))).
    { induction data as [| [c vs] data IH]; intros acc H; simpl; [exact H |].
      apply IH, keys_variants, H. }
    apply Hgen. constructor.
Qed.

End CleanPubsFacts.


Module AffilsFacts.
Import Affils.

(** Does abbreviation [abbr] name faculty flag [c]? *)
Definition abbr_names (c abbr : string) : bool :=
  if PyVal.contains_char "-" abbr then
    let parts := PyVal.split_on "-" abbr in
    (3 <=? List.length parts)%nat && String.eqb (Str.to_lowercase (nth 0 parts "")) c
  else String.eqb (Str.to_lowercase abbr) c.

(** An abbreviation of the form [faculty-department-group...] *)
Definition dashed (abbr : string) : bool :=
  PyVal.contains_char "-" abbr && (3 <=? List.length (PyVal.split_on "-" abbr))%nat.

Definition abbr_parts (abbr : string) : option string * option string * option string :=
  let parts := PyVal.split_on "-" abbr in
  (Some (nth 0 parts ""), Some (nth 1 parts ""), Some (nth 2 parts "")).

Definition list_cols_of (u : update) : option string * option string * option string :=
  (faculty_abbr u, department_abbr u, group_abbr u).

Lemma set_flag_map (cs : list string) (g : string -> bool) (f : string) :
  NoDup cs -> In f cs ->
  set_flag (map (fun c => (c, g c)) cs) f = map (fun c => (c, g c || String.eqb c f)) cs.
Proof.
  induction cs as [| c cs IH]; intros Hnd Hin; [destruct Hin |].
  inversion Hnd as [| ? ? Hnin Hnd']; subst. simpl.
  destruct (String.eqb_spec f c) as [<- | Hne].
  - rewrite String.eqb_refl, orb_true_r. f_equal. apply map_ext_in. intros c' Hc'.
    destruct (String.eqb_spec c' f) as [-> | _]; [contradiction | rewrite orb_false_r; reflexivity].
  - destruct Hin as [-> | Hin]; [congruence |].
    replace (String.eqb c f) with false by (symmetry; apply String.eqb_neq; congruence).
    rewrite orb_false_r, IH by assumption. reflexivity.
Qed.

Lemma bool_cols_nodup : NoDup bool_cols.
Proof. unfold bool_cols. repeat constructor; simpl; intuition discriminate. Qed.

Lemma flags_no_hit (g : string -> bool) (f : string) :
  in_bool_cols f = false ->
  map (fun c => (c, g c)) bool_cols = map (fun c => (c, g c || String.eqb f c)) bool_cols.
Proof.
  intros Hf. apply map_ext_in. intros c Hc.
  destruct (String.eqb_spec f c) as [-> | _]; [| rewrite orb_false_r; reflexivity].
  exfalso. unfold in_bool_cols in Hf.
  assert (existsb (String.eqb c) bool_cols = true)
    by (apply existsb_exists; exists c; split; [exact Hc | apply String.eqb_refl]).
  congruence.
Qed.

Lemma flags_hit (g : string -> bool) (f : string) :
  in_bool_cols f = true ->
  set_flag (map (fun c => (c, g c)) bool_cols) f =
  map (fun c => (c, g c || String.eqb f c)) bool_cols.
Proof.
  intros Hf. rewrite set_flag_map; [| apply bool_cols_nodup |].
  - apply map_ext. intros c. rewrite String.eqb_sym. reflexivity.
  - unfold in_bool_cols in Hf. apply existsb_exists in Hf as (c & Hc & E).
    apply String.eqb_eq in E. subst. exact Hc.
Qed.

Lemma apply_abbr_flags (u : update) (g : string -> bool) (a : string) :
  flags u = map (fun c => (c, g c)) bool_cols ->
  flags (apply_abbr u a) = map (fun c => (c, g c || abbr_names c a)) bool_cols.
Proof.
  intros Hu. unfold apply_abbr, abbr_names.
  destruct (PyVal.contains_char "-" a).
  - destruct (3 <=? List.length (PyVal.split_on "-" a))%nat; cbn [flags].
    + set (f := Str.to_lowercase (nth 0 (PyVal.split_on "-" a) "")).
      destruct (in_bool_cols f) eqn:Hf; rewrite Hu; [apply flags_hit | apply flags_no_hit]; exact Hf.
    + rewrite Hu. apply map_ext. intros c. rewrite orb_false_r. reflexivity.
  - cbn [flags]. set (f := Str.to_lowercase a).
    destruct (in_bool_cols f) eqn:Hf; rewrite Hu; [apply flags_hit | apply flags_no_hit]; exact Hf.
Qed.

Lemma fold_flags (affils : list string) (u : update) (g : string -> bool) :
  flags u = map (fun c => (c, g c)) bool_cols ->
  flags (fold_left apply_abbr affils u) =
  map (fun c => (c, g c || existsb (abbr_names c) affils)) bool_cols.
Proof.
  revert u g; induction affils as [| a affils IH]; intros u g Hu; cbn [fold_left existsb].
  - rewrite Hu. apply map_ext. intros c. rewrite orb_false_r. reflexivity.
  - rewrite (IH (apply_abbr u a) (fun c => g c || abbr_names c a)).
    + apply map_ext. intros c. rewrite orb_assoc. reflexivity.
    + apply apply_abbr_flags, Hu.
Qed.

Lemma fold_list_cols (affils : list string) (u : update) :
  list_cols_of (fold_left apply_abbr affils u) =
  match rev (filter dashed affils) with
  | [] => list_cols_of u
  | a :: _ => abbr_parts a
  end.
Proof.
  revert u; induction affils as [| a affils IH]; intros u; simpl; [reflexivity |].
  rewrite IH. assert (Hstep : list_cols_of (apply_abbr u a) =
                              if dashed a then abbr_parts a else list_cols_of u).
  { unfold apply_abbr, dashed, abbr_parts, list_cols_of.
    destruct (PyVal.contains_char "-" a); cbn [andb]; [| reflexivity].
    destruct (3 <=? List.length (PyVal.split_on "-" a))%nat; reflexivity. }
  destruct (rev (filter dashed affils)) as [| b r] eqn:Er;
    destruct (dashed a); simpl; rewrite ?Er; simpl; rewrite ?Hstep; reflexivity.
Qed.

Lemma fold_institute (affils : list string) (u : update) :
  institute (fold_left apply_abbr affils u) =
  match rev (filter (fun a => negb (PyVal.contains_char "-" a)) affils) with
  | [] => institute u
  | a :: _ => Some a
  end.
Proof.
  revert u; induction affils as [| a affils IH]; intros u; simpl; [reflexivity |].
  rewrite IH. assert (Hstep : institute (apply_abbr u a) =
                              if negb (PyVal.contains_char "-" a) then Some a else institute u).
  { unfold apply_abbr. destruct (PyVal.contains_char "-" a); cbn [negb]; [| reflexivity].
    destruct (3 <=? List.length (PyVal.split_on "-" a))%nat; reflexivity. }
  destruct (rev (filter (fun a0 => negb (PyVal.contains_char "-" a0)) affils)) as [| b r] eqn:Er;
    destruct (negb (PyVal.contains_char "-" a)); simpl; rewrite ?Er; simpl; rewrite ?Hstep;
    reflexivity.
Qed.

Lemma fold_name (affils : list string) (u : update) :
  name (fold_left apply_abbr affils u) = name u.
Proof.
  revert u; induction affils as [| a affils IH]; intros u; simpl; [reflexivity |].
  rewrite IH. unfold apply_abbr. destruct (PyVal.contains_char "-" a); [| reflexivity].
  destruct (3 <=? List.length (PyVal.split_on "-" a))%nat; reflexivity.
Qed.

(** An entry of [add_missing_affils]'s corrections is skipped exactly when
    its name is missing or empty or it lists no affiliation.  Otherwise its
    update row sets a faculty flag exactly when some abbreviation names it
    (flags are never reset), takes faculty, department and group from the
    last abbreviation of the form [a-b-c...], and the institute from the last
    abbreviation without a dash; an abbreviation with one dash only changes
    nothing. *)
Theorem entry_update_spec (e : entry) :
  let affils := match entry_affiliations e with Some l => l | None => [] end in
  (entry_update e = None <-> entry_name e = None \/ entry_name e = Some "" \/ affils = []) /\
  (forall n, entry_name e = Some n -> n <> "" -> affils <> [] ->
   exists u, entry_update e = Some u /\ name u = n /\
     flags u = map (fun c => (c, existsb (abbr_names c) affils)) bool_cols /\
     list_cols_of u = match rev (filter dashed affils) with
                      | [] => (None, None, None)
                      | a :: _ => abbr_parts a
                      end /\
     institute u = match rev (filter (fun a => negb (PyVal.contains_char "-" a)) affils) with
                   | [] => None
                   | a :: _ => Some a
                   end).
Proof.
  intros affils. unfold entry_update. fold affils. split.
  - destruct (entry_name e) as [n |].
    + destruct (String.eqb_spec n "") as [-> | Hn].
      * split; [intros _; right; left; reflexivity | reflexivity].
      * destruct affils as [| a l].
        -- split; [intros _; right; right; reflexivity | reflexivity].
        -- split; [discriminate |]. intros [H | [H | H]]; [discriminate | | discriminate].
           injection H as H. contradiction.
  + split; [intros _; left; reflexivity | reflexivity].
  - intros n Hn Hne Ha. rewrite Hn.
    replace (String.eqb n "") with false by (symmetry; apply String.eqb_neq; exact Hne).
    destruct affils as [| a l] eqn:Eaff; [contradiction |]. rewrite <- Eaff.
    eexists. split; [reflexivity |]. split; [| split; [| split]].
    + apply fold_name.
    + rewrite (fold_flags affils _ (fun _ => false)); reflexivity.
    + rewrite fold_list_cols. reflexivity.
    + rewrite fold_institute. reflexivity.
Qed.

End AffilsFacts.


Module FuzzyFacts.
Import Frame Matching Fuzzy MatchingFacts.

Lemma lcs_cons_cons (x y : ascii) (xs ys : list ascii) :
  lcs (x :: xs) (y :: ys) =
  if Ascii.eqb x y then S (lcs xs ys) else Nat.max (lcs xs (y :: ys)) (lcs (x :: xs) ys).
Proof. reflexivity. Qed.

Lemma lcs_nil_r (xs : list ascii) : lcs xs [] = 0%nat.
Proof. destruct xs; reflexivity. Qed.

Lemma lcs_sym (xs ys : list ascii) : lcs xs ys = lcs ys xs.
Proof.
  revert ys. induction xs as [| x xs IH]; intros ys.
  - rewrite lcs_nil_r. reflexivity.
  - induction ys as [| y ys IHys]; [rewrite lcs_nil_r; reflexivity |].
    rewrite !lcs_cons_cons, Ascii.eqb_sym, IH, IHys, (IH (y :: ys)).
    destruct (Ascii.eqb y x); [reflexivity | apply Nat.max_comm].
Qed.

Lemma lcs_refl (xs : list ascii) : lcs xs xs = List.length xs.
Proof.
  induction xs as [| x xs IH]; [reflexivity |].
  rewrite lcs_cons_cons, Ascii.eqb_refl, IH. reflexivity.
Qed.

Lemma lcs_full (xs ys : list ascii) :
  lcs xs ys = List.length xs -> List.length xs = List.length ys -> xs = ys.
Proof.
  revert ys. induction xs as [| x xs IH]; intros ys Hl Hlen.
  - destruct ys; [reflexivity | discriminate].
  - destruct ys as [| y ys]; [discriminate |].
    rewrite lcs_cons_cons in Hl. simpl in Hlen.
    destruct (Ascii.eqb x y) eqn:E.
    + apply Ascii.eqb_eq in E as ->. f_equal. apply IH; cbn [List.length] in Hl; lia.
    + exfalso. pose proof (lcs_le_left xs (y :: ys)). pose proof (lcs_le_right (x :: xs) ys).
      cbn [List.length] in Hl. lia.
Qed.

Lemma list_ascii_inj (a b : string) : list_ascii_of_string a = list_ascii_of_string b -> a = b.
Proof.
  intros H. rewrite <- (string_of_list_ascii_of_string a), <- (string_of_list_ascii_of_string b).
  f_equal. exact H.
Qed.

Lemma ratio_sym (a b : string) : ratio a b = ratio b a.
Proof.
  unfold ratio, indel_distance. rewrite (Nat.add_comm (String.length b)), lcs_sym. reflexivity.
Qed.

Local Open Scope Q_scope.

Lemma ratio_one_iff (a b : string) : ratio a b == 1 <-> a = b.
Proof.
  unfold ratio, indel_distance.
  pose proof (lcs_le_left (list_ascii_of_string a) (list_ascii_of_string b)) as Hl.
  pose proof (lcs_le_right (list_ascii_of_string a) (list_ascii_of_string b)) as Hr.
  rewrite !length_list_ascii in Hl, Hr.
  destruct (Nat.eqb_spec (String.length a + String.length b) 0) as [H0 | H0].
  - split; [intros _ | reflexivity].
    destruct a, b; [reflexivity | simpl in H0; lia ..].
  - set (L := (String.length a + String.length b)%nat) in *.
    set (d := (L - 2 * lcs (list_ascii_of_string a) (list_ascii_of_string b))%nat).
    assert (HL : ~ inject_Z (Z.of_nat L) == 0).
    { intros HL. apply (proj1 (inject_Z_injective (Z.of_nat L) 0)) in HL. lia. }
    split.
    + intros H. assert (Hq : inject_Z (Z.of_nat d) / inject_Z (Z.of_nat L) == 0).
      { rewrite <- (Qplus_inj_l _ _ (- (inject_Z (Z.of_nat d) / inject_Z (Z.of_nat L)))) in H.
        revert H. unfold Qminus. intros H. lra. }
      assert (Hd : inject_Z (Z.of_nat d) == inject_Z 0).
      { rewrite <- (Qmult_div_r (inject_Z (Z.of_nat d)) (inject_Z (Z.of_nat L)) HL), Hq.
        apply Qmult_0_r. }
      apply (proj1 (inject_Z_injective (Z.of_nat d) 0)) in Hd. unfold d, L in Hd.
      apply list_ascii_inj, lcs_full; rewrite !length_list_ascii; lia.
    + intros <-. unfold d. rewrite lcs_refl, length_list_ascii.
      unfold L. replace (String.length a + String.length a - 2 * String.length a)%nat with 0%nat
        by lia.
      unfold Qdiv. rewrite Qmult_0_l. lra.
Qed.

(** [calculate_fuzzy_match] scores each row with a value in [[0, 1]] that
    does not depend on the order of the two columns, and that is [1] exactly
    when the two cells agree once a null cell is read as [""] (so two null
    cells, or a null and an empty cell, score [1]). *)
Theorem fuzzy_ratio_properties (r : row) (left_col right_col : string) :
  0 <= fuzzy_ratio r left_col right_col <= 1 /\
  fuzzy_ratio r left_col right_col = fuzzy_ratio r right_col left_col /\
  (fuzzy_ratio r left_col right_col == 1 <->
   or_empty (row_get r left_col) = or_empty (row_get r right_col)).
Proof.
  unfold fuzzy_ratio. split; [apply ratio_bounds |]. split; [apply ratio_sym | apply ratio_one_iff].
Qed.

End FuzzyFacts.


Module CleanPubsExamples.
Import Frame CleanPubs CleanPubsFacts.

(** ["2022-01-23"] and ["2023-03-15"] are valid dates that the fix-up
    rewrites. *)
Lemma fix_publication_date_rewrites_valid_dates_witness :
  fix_publication_date (Some "2022-01-23") = Some "2022023-01-02" /\
  fix_publication_date (Some "2023-03-15") = Some "2022015-03-03".
Proof.
  apply (fix_publication_date_rewrites_valid_dates "2"%char "0"%char "2"%char); reflexivity.
Defined.

Lemma clean_doi_value_strips_any_case_prefix_witness :
  clean_doi_value (Some ("HTTPS://DOI.ORG/" ++ " 10.1/ABC ")) =
    Some (Str.strip Str.rust_is_whitespace (Str.to_lowercase " 10.1/ABC ")) /\
  clean_doi_value (Some ("HTTPS://DOI.ORG/" ++ " 10.1/ABC ")) = Some "10.1/abc".
Proof.
  split; [apply clean_doi_value_strips_any_case_prefix; reflexivity | vm_compute; reflexivity].
Defined.

End CleanPubsExamples.

Module AffilsExamples.
Import Affils AffilsFacts.

Lemma entry_update_spec_witness :
  exists u, entry_update (mkEntry (Some "J. Doe") (Some ["EEMCS-DMB-DS"; "DSI"; "TNW-x"])) = Some u /\
    name u = "J. Doe" /\
    flags u = [("tnw", false); ("eemcs", true); ("et", false); ("bms", false);
               ("itc", false); ("dsi", true); ("techmed", false); ("mesa", false)] /\
    list_cols_of u = (Some "EEMCS", Some "DMB", Some "DS") /\ institute u = Some "DSI".
Proof.
  destruct (proj2 (entry_update_spec (mkEntry (Some "J. Doe") (Some ["EEMCS-DMB-DS"; "DSI"; "TNW-x"])))
              "J. Doe" eq_refl ltac:(discriminate) ltac:(discriminate))
    as (u & Hu & Hn & Hf & Hl & Hi).
  exists u. rewrite Hu, Hn, Hf, Hl, Hi. vm_compute. repeat split.
Defined.

End AffilsExamples.


Module OilsMergeFacts.
Import OilsMerge CleanPubsFacts.

Lemma replace_space_app (a b : string) : replace_space (a ++ b) = replace_space a ++ replace_space b.
Proof. induction a as [| x a IH]; simpl; [reflexivity | rewrite IH; reflexivity]. Qed.

Lemma replace_space_no_space (s : string) : ~ In " "%char (list_ascii_of_string (replace_space s)).
Proof.
  induction s as [| c s IH]; simpl; [tauto |].
  intros [H | H]; [| contradiction].
  destruct (Ascii.eqb_spec c " ") as [_ | Hc]; [discriminate | congruence].
Qed.

Lemma lower_replace_char (c : ascii) :
  Str.lower_char (if Ascii.eqb (Str.lower_char c) " " then "_"%char else Str.lower_char c) =
  (if Ascii.eqb (Str.lower_char c) " " then "_"%char else Str.lower_char c).
Proof. destruct c as [[] [] [] [] [] [] [] []]; vm_compute; reflexivity. Qed.

Lemma lower_replace_lower (s : string) :
  Str.to_lowercase (replace_space (Str.to_lowercase s)) = replace_space (Str.to_lowercase s).
Proof. induction s as [| c s IH]; simpl; [reflexivity | rewrite IH, lower_replace_char; reflexivity]. Qed.

Lemma string_app_inj_r (a b s : string) : a ++ s = b ++ s -> a = b.
Proof.
  intros H. assert (Hl : String.length a = String.length b).
  { apply (f_equal String.length) in H. rewrite !string_length_app in H. lia. }
  clear - H Hl. revert b H Hl. induction a as [| x a IH]; intros [| y b] H Hl;
    simpl in *; try discriminate; [reflexivity |].
  injection H as -> H. f_equal. apply IH; [exact H | lia].
Qed.

Lemma oils_name_split (c : string) :
  oils_name c = replace_space (Str.to_lowercase c) ++ "_oils".
Proof. unfold oils_name. rewrite to_lowercase_app, replace_space_app. reflexivity. Qed.

Lemma first_rename_doi (c : string) :
  replace_space (Str.to_lowercase (first_rename c)) = "doi" <->
  replace_space (Str.to_lowercase c) = "doi".
Proof.
  unfold first_rename. simpl.
  destruct (String.eqb c "Title_1") eqn:E1;
    [apply String.eqb_eq in E1; subst c; vm_compute; split; discriminate |].
  destruct (String.eqb c "Keywords (free keywords)") eqn:E2;
    [apply String.eqb_eq in E2; subst c; vm_compute; split; discriminate |].
  destruct (String.eqb c "Pure ID") eqn:E3;
    [apply String.eqb_eq in E3; subst c; vm_compute; split; discriminate |].
  destruct (String.eqb c "DOI") eqn:E4;
    [apply String.eqb_eq in E4; subst c; vm_compute; tauto | reflexivity].
Qed.

(** [merge_oils_with_all] renames every OILS column to a lowercase name
    without spaces that ends in ["_oils"], and the column it joins on,
    ["doi_oils"], is made from any column whose name reads ["doi"] once
    lowercased with spaces turned into underscores ([DOI], [doi], [Doi],
    ...): several such columns all get the name ["doi_oils"]. *)
Theorem oils_columns_names (cols : list string) :
  (forall n, In n (oils_columns cols) ->
     ~ In " "%char (list_ascii_of_string n) /\ Str.to_lowercase n = n /\
     exists base, n = base ++ "_oils") /\
  (forall c, oils_name (first_rename c) = "doi_oils" <->
             replace_space (Str.to_lowercase c) = "doi").
Proof.
  split.
  - intros n Hn. unfold oils_columns in Hn. apply in_map_iff in Hn as (c0 & <- & _).
    split; [| split].
    + unfold oils_name. apply replace_space_no_space.
    + unfold oils_name. apply lower_replace_lower.
    + eexists. apply oils_name_split.
  - intros c. rewrite oils_name_split. change "doi_oils" with ("doi" ++ "_oils").
    split; [intros H; apply string_app_inj_r in H | intros H; f_equal];
      apply first_rename_doi; exact H.
Qed.

End OilsMergeFacts.


Module PageParseFacts.
Import PyVal OAIParse PageParse.

Lemma bind_ret_r {A : Type} (m : pyres A) : bind m (fun x => Ret x) = m.
Proof. destruct m; reflexivity. Qed.

Lemma process_records_staged (str_of : pyval -> string) (c : string) (recs : list pyval) :
  process_records str_of c recs =
  let* pubs := map_res (record_pub) recs in
  map_res (collection_parser str_of c) (filter truthy pubs).
Proof.
  induction recs as [| r rs IH]; [reflexivity |]. simpl.
  destruct (record_pub r) as [| p]; [reflexivity |]. simpl.
  destruct (truthy p) eqn:Hp; simpl.
  - rewrite IH. destruct (map_res record_pub rs) as [| ps]; simpl; rewrite ?Hp; simpl;
      destruct (collection_parser str_of c p) as [| y]; simpl; try reflexivity.
  - rewrite bind_ret_r, IH.
    destruct (map_res record_pub rs); simpl; rewrite ?Hp; reflexivity.
Qed.

(** For one ListRecords page, [get_collection_data] runs the parser chosen
    by the collection name on the publication part of every record whose
    part is non-empty, in page order, and raises if one record is not a
    dict (an empty [<record/>]) or its parser raises.  A page with no
    [ListRecords] (an OAI-PMH error such as [noRecordsMatch]) or no
    [record] gives no records; a single record that [xmltodict] does not
    wrap in a list is handled like a list holding it. *)
Theorem collection_page_spec (str_of : pyval -> string) (c : string) :
  (forall parsed,
     collection_page str_of c parsed =
     let* recs := page_recs parsed in
     let* pubs := map_res record_pub recs in
     map_res (collection_parser str_of c) (filter truthy pubs)) /\
  (forall l kvs, (exists r, In r l /\ is_dict r = false) ->
     collection_page str_of c (oai_page (("record", PList l) :: kvs)) = Raise) /\
  (forall kvs, dict_lookup kvs "ListRecords" = None ->
     collection_page str_of c (PDict [("OAI-PMH", PDict kvs)]) = Ret []) /\
  (forall kvs, dict_lookup kvs "record" = None ->
     collection_page str_of c (oai_page kvs) = Ret []) /\
  (forall r kvs, truthy r = true -> (forall l, r <> PList l) ->
     collection_page str_of c (oai_page (("record", r) :: kvs)) =
     collection_page str_of c (oai_page (("record", PList [r]) :: kvs))).
Proof.
  split; [| split; [| split; [| split]]].
  - intros parsed. unfold collection_page. destruct (page_recs parsed); [reflexivity |].
    apply process_records_staged.
  - intros l kvs (r & Hin & Hr). unfold collection_page. cbn.
    rewrite process_records_staged.
    enough (H : map_res record_pub l = Raise) by (rewrite H; reflexivity).
    induction l as [| x l IHl]; [destruct Hin |]. simpl.
    destruct Hin as [-> | Hin].
    + destruct r; try discriminate; reflexivity.
    + destruct (record_pub x); [reflexivity |]. simpl. rewrite (IHl Hin). reflexivity.
  - intros kvs H. unfold collection_page, page_recs. cbn. rewrite H. reflexivity.
  - intros kvs H. unfold collection_page, page_recs. cbn. unfold dict_get. rewrite H. reflexivity.
  - intros r kvs Ht Hl. unfold collection_page, page_recs. cbn.
    destruct r as [| s | l | kvs']; [discriminate | | exfalso; exact (Hl l eq_refl) |];
      cbn in Ht |- *; rewrite ?Ht; reflexivity.
Qed.

End PageParseFacts.
